(** * Smart Student Hub: the activity wizard of [frontend/js/activities.js]

    A shallow embedding of the [ActivityManager] class (multi-step form,
    field validation, file list, activity loading) together with the
    [generatePortfolio] entry point of [frontend/js/portfolio.js], and the
    properties of the specification checked against it.

    Conventions of the embedding.
    - JavaScript strings are [string]s whose characters are read as code
      units below 256; [length] is the number of code units.
    - JavaScript numbers that the controller manipulates ([currentStep],
      indices) are integers and modelled in [Z].
    - The DOM is a store: controls are addressed by their position in
      document order; the elements that hold error nodes form a tree, and a
      control names its [parentElement] by the key of that element.
    - An [async] method is split at its [await]: the part that runs when the
      method is called, and the part that runs when the awaited request
      settles.
    - Exceptions are completions: a run of statements ends normally, by
      throwing, or suspended at an [await]; an error nobody catches is
      recorded and the page goes on. What other scripts of the page do
      when they are told of such an error is outside the model.
    - [Utils.showLoading] and [Utils.makeRequest] are modelled by their
      effect: the overlay goes up or down, a request is recorded as issued.
      Rendering that no property reads ([updateStepDisplay], the activity
      cards, the success modal of the portfolio) is left out. *)

From Stdlib Require Import ZArith Ascii String List Bool Lia.
From stdpp Require Import base option list gmap strings sorting.
Import ListNotations.

Local Open Scope string_scope.
Local Open Scope Z_scope.

(** ** Built-ins of the language *)

Module JS.

(** [String.prototype.trim] strips WhiteSpace and LineTerminator code
    units; below 256 these are TAB, LF, VT, FF, CR, SP and NBSP. *)
Definition isWhiteSpace (c : ascii) : bool :=
  let n := nat_of_ascii c in
  existsb (Nat.eqb n) [9; 10; 11; 12; 13; 32; 160]%nat.

Fixpoint trimStart (l : list ascii) : list ascii :=
  match l with
  | c :: t => if isWhiteSpace c then trimStart t else l
  | [] => []
  end.

Definition trimEnd (l : list ascii) : list ascii := rev (trimStart (rev l)).

Definition trim (s : string) : string :=
  string_of_list_ascii (trimEnd (trimStart (list_ascii_of_string s))).

(** Truthiness of a string: only the empty string is falsy. *)
Definition truthy (s : string) : bool :=
  match s with EmptyString => false | _ => true end.

(** The value of a digit in a radix up to 16, if it is one. *)
Definition digitValue (c : ascii) : option Z :=
  let n := Z.of_nat (nat_of_ascii c) in
  if (48 <=? n) && (n <=? 57) then Some (n - 48)
  else if (97 <=? n) && (n <=? 102) then Some (n - 87)
  else if (65 <=? n) && (n <=? 70) then Some (n - 55)
  else None.

Definition digitIn (radix : Z) (c : ascii) : option Z :=
  match digitValue c with
  | Some v => if v <? radix then Some v else None
  | None => None
  end.

(** The longest prefix of digits of the radix: its value, how many digits
    it has, and what follows. *)
Fixpoint spanDigits (radix : Z) (acc : Z) (n : nat) (l : list ascii)
  : Z * nat * list ascii :=
  match l with
  | c :: t =>
      match digitIn radix c with
      | Some v => spanDigits radix (acc * radix + v) (S n) t
      | None => (acc, n, l)
      end
  | [] => (acc, n, [])
  end.

Definition stripSign (l : list ascii) : bool * list ascii :=
  match l with
  | "-"%char :: t => (true, t)
  | "+"%char :: t => (false, t)
  | _ => (false, l)
  end.

(** A JavaScript number as far as the controller can tell numbers apart:
    not-a-number, an infinity, or the exact decimal [m * 10^e] a literal
    denotes (before it is rounded to a double). *)
Inductive number : Type :=
| NaN
| Infinity (negative : bool)
| Finite (m e : Z).

(** ExponentPart, or nothing, up to the end of the literal. *)
Definition exponentPart (l : list ascii) : option Z :=
  match l with
  | [] => Some 0
  | c :: t =>
      if (Ascii.eqb c "e" || Ascii.eqb c "E")%bool then
        let '(neg, t') := stripSign t in
        match spanDigits 10 0 0 t' with
        | (v, S _, []) => Some (if neg then - v else v)
        | _ => None
        end
      else None
  end.

(** StrUnsignedDecimalLiteral. *)
Definition unsignedDecimal (neg : bool) (l : list ascii) : number :=
  if String.eqb (string_of_list_ascii l) "Infinity" then Infinity neg
  else
    let '(ip, ni, r1) := spanDigits 10 0 0 l in
    let '(m, nf, r2) :=
      match r1 with
      | "."%char :: t => spanDigits 10 ip 0 t
      | _ => (ip, 0%nat, r1)
      end in
    let dotted := match r1 with "."%char :: _ => true | _ => false end in
    if ((ni =? 0)%nat && ((nf =? 0)%nat || negb dotted))%bool then NaN
    else
      match exponentPart r2 with
      | Some e =>
          let m' := if neg then - m else m in
          Finite m' (e - Z.of_nat nf)
      | None => NaN
      end.

(** NonDecimalIntegerLiteral: [0x], [0o] and [0b] prefixes, unsigned. *)
Definition nonDecimal (l : list ascii) : option number :=
  match l with
  | "0"%char :: p :: t =>
      let radix :=
        if (Ascii.eqb p "x" || Ascii.eqb p "X")%bool then Some 16
        else if (Ascii.eqb p "o" || Ascii.eqb p "O")%bool then Some 8
        else if (Ascii.eqb p "b" || Ascii.eqb p "B")%bool then Some 2
        else None in
      match radix with
      | Some r =>
          match spanDigits r 0 0 t with
          | (v, S _, []) => Some (Finite v 0)
          | _ => Some NaN
          end
      | None => None
      end
  | _ => None
  end.

(** [Number(s)] for a string [s] (StringToNumber). *)
Definition Number (s : string) : number :=
  let l := trimEnd (trimStart (list_ascii_of_string s)) in
  match l with
  | [] => Finite 0 0
  | _ =>
      match nonDecimal l with
      | Some n => n
      | None => let '(neg, t) := stripSign l in unsignedDecimal neg t
      end
  end.

(** [isNaN(s)]: the argument is converted with [Number] first. *)
Definition isNaN (s : string) : bool :=
  match Number s with NaN => true | _ => false end.

(** [parseInt(s)] without a radix: [None] stands for NaN. *)
Definition parseInt (s : string) : option Z :=
  let '(neg, t) := stripSign (trimStart (list_ascii_of_string s)) in
  let '(radix, t') :=
    match t with
    | "0"%char :: p :: r =>
        if (Ascii.eqb p "x" || Ascii.eqb p "X")%bool then (16, r) else (10, t)
    | _ => (10, t)
    end in
  match spanDigits radix 0 0 t' with
  | (v, S _, _) => Some (if neg then - v else v)
  | _ => None
  end.

(** [x < 1] for the result of [parseInt]: false on NaN. *)
Definition ltOne (x : option Z) : bool :=
  match x with Some v => v <? 1 | None => false end.

(** Whether the exact value denoted by a number is below one. *)
Definition belowOne (x : number) : bool :=
  match x with
  | NaN => false
  | Infinity negative => negative
  | Finite m e =>
      if 0 <=? e then m * 10 ^ e <? 1 else m <? 10 ^ (- e)
  end.

End JS.

(** ** The document *)

(** A form control ([input], [textarea] or [select]). [f_parent] is the key
    of its [parentElement]; [f_default] is the value [form.reset()] restores. *)
Record Field : Type := mkField {
  f_id : string;
  f_name : string;
  f_required : bool;
  f_value : string;
  f_default : string;
  f_parent : nat
}.

(** A [.form-step] element: its [data-step] attribute and the positions of
    the controls below it, in document order. *)
Record FormStep : Type := mkFormStep {
  data_step : Z;
  step_fields : list nat
}.

Record File : Type := mkFile {
  file_name : string;
  file_size : Z;
  file_type : string
}.

(** The elements of the form as far as error nodes go: a sequence of
    sibling nodes in document order, each either a [.form-error] node with
    its text or an element with its key, its children and the siblings that
    follow it. Controls are not listed: a control names its parent by key.
    An element that holds no error node and no listed element need not be
    listed; the parent of a control that is not listed is such an element,
    outside every listed one. *)
Inductive Nodes : Type :=
| NoNode
| FormError (message : string) (next : Nodes)
| Element (key : nat) (children : Nodes) (next : Nodes).

(** The part of the page the controller reads and writes.
    - [errorClass]: the controls whose class list holds [error];
    - [nodes]: the elements and error nodes of the form;
    - [documents]: the file list of the [#documents] input, if the input
      exists; [selectedFiles]: the entries rendered in [#selectedFiles], if
      that container exists;
    - [fileUploadArea]: whether the page has a [.file-upload-area]. *)
Record Document : Type := mkDocument {
  addActivityForm : bool;
  controls : list Field;
  errorClass : gset nat;
  nodes : Nodes;
  formSteps : list FormStep;
  documents : option (list File);
  selectedFiles : option (list File);
  fileUploadArea : bool
}.

Definition set_controls (fs : list Field) (d : Document) : Document :=
  mkDocument (addActivityForm d) fs (errorClass d) (nodes d)
             (formSteps d) (documents d) (selectedFiles d) (fileUploadArea d).

Definition set_markers (ec : gset nat) (n : Nodes) (d : Document) : Document :=
  mkDocument (addActivityForm d) (controls d) ec n
             (formSteps d) (documents d) (selectedFiles d) (fileUploadArea d).

Definition set_documents (fl : option (list File)) (d : Document) : Document :=
  mkDocument (addActivityForm d) (controls d) (errorClass d) (nodes d)
             (formSteps d) fl (selectedFiles d) (fileUploadArea d).

Definition set_selectedFiles (fl : option (list File)) (d : Document) : Document :=
  mkDocument (addActivityForm d) (controls d) (errorClass d) (nodes d)
             (formSteps d) (documents d) fl (fileUploadArea d).

(** [document.getElementById(id)]: the first control with that id. *)
Definition getElementById (id : string) (d : Document) : option nat :=
  fst <$> list_find (fun f => f_id f = id) (controls d).

(** [el.value] of the control at a position. *)
Definition valueAt (i : nat) (d : Document) : string :=
  from_option f_value "" (controls d !! i).

(** *** Error nodes *)

(** The texts of the error nodes among some nodes and below them, in
    document order: what [querySelectorAll('.form-error')] finds there. *)
Fixpoint errorsIn (n : Nodes) : list string :=
  match n with
  | NoNode => []
  | FormError message next => message :: errorsIn next
  | Element _ children next => (errorsIn children ++ errorsIn next)%list
  end.

(** The children of the element with key [p]: of the first one in document
    order, should the key occur twice. *)
Fixpoint childrenOf (p : nat) (n : Nodes) : option Nodes :=
  match n with
  | NoNode => None
  | FormError _ next => childrenOf p next
  | Element key children next =>
      if (key =? p)%nat then Some children
      else match childrenOf p children with
           | Some found => Some found
           | None => childrenOf p next
           end
  end.

Fixpoint elementKeys (n : Nodes) : list nat :=
  match n with
  | NoNode => []
  | FormError _ next => elementKeys next
  | Element key children next => key :: (elementKeys children ++ elementKeys next)%list
  end.

(** The texts of the error nodes inside the element [p], at any depth. *)
Definition errorsAt (p : nat) (n : Nodes) : list string :=
  from_option errorsIn [] (childrenOf p n).

(** [formErrors d !! p]: the texts of the error nodes inside the element
    [p], in document order; an element without any has no entry. *)
Definition formErrors (d : Document) : gmap nat (list string) :=
  list_to_map
    (omap (fun p => match errorsAt p (nodes d) with
                    | [] => None
                    | l => Some (p, l)
                    end)
          (elementKeys (nodes d))).

(** [parent.querySelector('.form-error')] followed by [remove()], on the
    children of the parent: the first error node in document order goes,
    wherever below the parent it is. [None] when there is none. *)
Fixpoint removeFirstFormError (n : Nodes) : option Nodes :=
  match n with
  | NoNode => None
  | FormError _ next => Some next
  | Element key children next =>
      match removeFirstFormError children with
      | Some children' => Some (Element key children' next)
      | None => Element key children <$> removeFirstFormError next
      end
  end.

(** [if (existing) existing.remove()]. *)
Definition withoutFirstFormError (n : Nodes) : Nodes :=
  default n (removeFirstFormError n).

Fixpoint appendNodes (n more : Nodes) : Nodes :=
  match n with
  | NoNode => more
  | FormError message next => FormError message (appendNodes next more)
  | Element key children next => Element key children (appendNodes next more)
  end.

(** [parent.appendChild(errorDiv)], on the children of the parent. *)
Definition appendFormError (message : string) (n : Nodes) : Nodes :=
  appendNodes n (FormError message NoNode).

(** The nodes with the children of the element [p] changed by [g]; [None]
    when [p] is not listed. *)
Fixpoint withChildren (p : nat) (g : Nodes -> Nodes) (n : Nodes) : option Nodes :=
  match n with
  | NoNode => None
  | FormError message next => FormError message <$> withChildren p g next
  | Element key children next =>
      if (key =? p)%nat then Some (Element key (g children) next)
      else match withChildren p g children with
           | Some children' => Some (Element key children' next)
           | None => Element key children <$> withChildren p g next
           end
  end.

(** The same for the parent of a control, which may not be listed yet: it
    is listed, after the others, once it holds a node. *)
Definition inParent (p : nat) (g : Nodes -> Nodes) (n : Nodes) : Nodes :=
  match withChildren p g n with
  | Some n' => n'
  | None =>
      match g NoNode with
      | NoNode => n
      | children => appendNodes n (Element p children NoNode)
      end
  end.

(** [form.querySelectorAll('.form-error').forEach(error => error.remove())]. *)
Fixpoint withoutFormErrors (n : Nodes) : Nodes :=
  match n with
  | NoNode => NoNode
  | FormError _ next => withoutFormErrors next
  | Element key children next =>
      Element key (withoutFormErrors children) (withoutFormErrors next)
  end.

Definition showFieldError (i : nat) (message : string) (d : Document) : Document :=
  match controls d !! i with
  | Some f =>
      set_markers ({[i]} ∪ errorClass d)
        (inParent (f_parent f)
           (fun children => appendFormError message (withoutFirstFormError children))
           (nodes d)) d
  | None => d
  end.

Definition clearFieldError (i : nat) (d : Document) : Document :=
  match controls d !! i with
  | Some f =>
      set_markers (errorClass d ∖ {[i]})
        (inParent (f_parent f) withoutFirstFormError (nodes d)) d
  | None => d
  end.

(** ** Field validation *)

(** The decision of [validateField]: [isValid] and [errorMessage] as they
    stand when the [switch] is left. *)
Definition fieldVerdict (f : Field) : bool * string :=
  let value := JS.trim (f_value f) in
  let '(isValid, errorMessage) :=
    if f_required f && negb (JS.truthy value)
    then (false, "This field is required")
    else (true, "") in
  if String.eqb (f_name f) "title" then
    if JS.truthy value && (Z.of_nat (String.length value) <? 3)
    then (false, "Title must be at least 3 characters")
    else (isValid, errorMessage)
  else if String.eqb (f_name f) "description" then
    if JS.truthy value && (Z.of_nat (String.length value) <? 10)
    then (false, "Description must be at least 10 characters")
    else (isValid, errorMessage)
  else if String.eqb (f_name f) "durationHours" then
    if JS.truthy value && (JS.isNaN value || JS.ltOne (JS.parseInt value))
    then (false, "Duration must be a positive number")
    else (isValid, errorMessage)
  else (isValid, errorMessage).

Definition validateField (i : nat) (d : Document) : bool * Document :=
  match controls d !! i with
  | Some f =>
      let d1 := clearFieldError i d in
      let '(isValid, errorMessage) := fieldVerdict f in
      (isValid, if isValid then d1 else showFieldError i errorMessage d1)
  | None => (true, d)
  end.

(** A date-only ISO string [YYYY-MM-DD] read as milliseconds since the
    epoch, the form a date input yields; used to run the date rule on
    concrete values. Hosts differ on a day beyond the end of its month;
    the examples use none. *)
Definition isLeap (y : Z) : bool :=
  ((y mod 4 =? 0) && negb (y mod 100 =? 0)) || (y mod 400 =? 0).

Definition daysInMonth (y m : Z) : Z :=
  if m =? 2 then (if isLeap y then 29 else 28)
  else if (m =? 4) || (m =? 6) || (m =? 9) || (m =? 11) then 30 else 31.

Definition daysFromCivil (y m d : Z) : Z :=
  let y' := if m <=? 2 then y - 1 else y in
  let era := y' / 400 in
  let yoe := y' - era * 400 in
  let mp := (m + 9) mod 12 in
  let doy := (153 * mp + 2) / 5 + d - 1 in
  let doe := yoe * 365 + yoe / 4 - yoe / 100 + doy in
  era * 146097 + doe - 719468.

Definition isoDate (s : string) : option Z :=
  match list_ascii_of_string s with
  | [y1; y2; y3; y4; "-"%char; m1; m2; "-"%char; d1; d2] =>
      match JS.spanDigits 10 0 0 [y1; y2; y3; y4],
            JS.spanDigits 10 0 0 [m1; m2],
            JS.spanDigits 10 0 0 [d1; d2] with
      | (y, _, []), (m, _, []), (dd, _, []) =>
          if (1 <=? m) && (m <=? 12) && (1 <=? dd) && (dd <=? daysInMonth y m)
          then Some (daysFromCivil y m dd * 86400000)
          else None
      | _, _, _ => None
      end
  | _ => None
  end.

(** ** Requests, responses and the state of the page *)

(** One part of a multipart body ([FormData.append]). *)
Inductive FormEntry : Type :=
| TextPart (name value : string)
| FilePart (name : string) (file : File).

(** What [generatePortfolio] is given as [template]: the name of a
    template, or, from the click listener of [#generatePortfolioBtn], the
    click event itself. *)
Inductive Template : Type :=
| TemplateName (name : string)
| ClickEvent.

(** The calls of [Utils.makeRequest] the modelled methods issue. *)
Inductive Request : Type :=
| PostActivities (body : list FormEntry)
| GetActivities (page per_page : Z) (status search : option string)
| PostPortfolioGenerate (template : Template).

(** How the promise of [Utils.makeRequest] settles: with the parsed body
    (of which the model keeps the ids of [response.activities]) or with an
    [Error] carrying a message. *)
Inductive Response : Type :=
| Resolved (activities : list Z)
| Rejected (message : string).

(** The [async] method suspended on a request. *)
Inductive Continuation : Type :=
| AwaitSubmit
| AwaitLoad
| AwaitGenerate.

Record Toast : Type := mkToast {
  toast_message : string;
  toast_type : string;
  toast_title : string
}.

(** A thrown value: an [Error] with its name and message. *)
Record Error : Type := mkError {
  error_name : string;
  error_message : string
}.

Definition TypeError (message : string) : Error := mkError "TypeError" message.

(** The fields of the [ActivityManager] instance. [searchQuery] is
    [undefined] until the first search. *)
Record ActivityManager : Type := mkActivityManager {
  activities : list Z;
  currentFilter : string;
  currentPage : Z;
  itemsPerPage : Z;
  isLoading : bool;
  searchQuery : option string;
  currentStep : Z;
  totalSteps : Z
}.

(** The managers, the page, and the environment they act on.
    - [requests]: every request issued so far, oldest first;
    - [awaiting]: the suspended methods, keyed by the position in
      [requests] of the request each one awaits;
    - [toasts]: the toasts the managers have shown, oldest first;
    - [loadingOverlay]: whether the overlay of [Utils.showLoading] is up;
    - [uncaught]: the errors that left a listener, or rejected the promise
      of an [async] method nobody awaits, oldest first: what the page is
      told of through its [error] and [unhandledrejection] events. *)
Record World : Type := mkWorld {
  manager : ActivityManager;
  isGenerating : bool;
  page : Document;
  requests : list Request;
  awaiting : gmap nat Continuation;
  toasts : list Toast;
  loadingOverlay : bool;
  uncaught : list Error
}.

Definition set_manager (m : ActivityManager) (w : World) : World :=
  mkWorld m (isGenerating w) (page w) (requests w) (awaiting w) (toasts w)
          (loadingOverlay w) (uncaught w).

Definition set_isGenerating (b : bool) (w : World) : World :=
  mkWorld (manager w) b (page w) (requests w) (awaiting w) (toasts w)
          (loadingOverlay w) (uncaught w).

Definition set_page (d : Document) (w : World) : World :=
  mkWorld (manager w) (isGenerating w) d (requests w) (awaiting w) (toasts w)
          (loadingOverlay w) (uncaught w).

Definition set_loadingOverlay (b : bool) (w : World) : World :=
  mkWorld (manager w) (isGenerating w) (page w) (requests w) (awaiting w)
          (toasts w) b (uncaught w).

Definition set_awaiting (a : gmap nat Continuation) (w : World) : World :=
  mkWorld (manager w) (isGenerating w) (page w) (requests w) a (toasts w)
          (loadingOverlay w) (uncaught w).

Definition set_currentStep (n : Z) (m : ActivityManager) : ActivityManager :=
  mkActivityManager (activities m) (currentFilter m) (currentPage m)
    (itemsPerPage m) (isLoading m) (searchQuery m) n (totalSteps m).

Definition set_isLoading (b : bool) (m : ActivityManager) : ActivityManager :=
  mkActivityManager (activities m) (currentFilter m) (currentPage m)
    (itemsPerPage m) b (searchQuery m) (currentStep m) (totalSteps m).

Definition set_activities (l : list Z) (m : ActivityManager) : ActivityManager :=
  mkActivityManager l (currentFilter m) (currentPage m)
    (itemsPerPage m) (isLoading m) (searchQuery m) (currentStep m) (totalSteps m).

Definition set_query (filter : string) (search : option string) (m : ActivityManager)
  : ActivityManager :=
  mkActivityManager (activities m) filter 1
    (itemsPerPage m) (isLoading m) search (currentStep m) (totalSteps m).

(** *** Exceptions *)

(** How a run of statements ends: normally, by throwing, or suspended at
    an [await]. *)
Inductive Completion : Type :=
| Normal (w : World)
| Throw (error : Error) (w : World)
| Suspended (w : World).

Definition andThen (c : Completion) (rest : World -> Completion) : Completion :=
  match c with
  | Normal w => rest w
  | Throw error w => Throw error w
  | Suspended w => Suspended w
  end.

Notation "c ;;; rest" := (andThen c rest) (at level 61, left associativity).

(** [try { body } catch (error) { handler } finally { finalizer }]. A body
    suspended at an [await] leaves the rest of the statement to the
    continuation. *)
Definition catch (c : Completion) (handler : Error -> World -> Completion)
  : Completion :=
  match c with
  | Throw error w => handler error w
  | _ => c
  end.

Definition finally (c : Completion) (finalizer : World -> World) : Completion :=
  match c with
  | Normal w => Normal (finalizer w)
  | Throw error w => Throw error (finalizer w)
  | Suspended w => Suspended w
  end.

Definition tryCatchFinally (body : Completion)
  (handler : Error -> World -> Completion) (finalizer : World -> World)
  : Completion :=
  finally (catch body handler) finalizer.

(** The end of a listener or of an [async] method nobody awaits: an error
    it throws is reported and the page goes on. *)
Definition unhandled (c : Completion) : World :=
  match c with
  | Normal w => w
  | Throw error w =>
      mkWorld (manager w) (isGenerating w) (page w) (requests w) (awaiting w)
              (toasts w) (loadingOverlay w) (uncaught w ++ [error])%list
  | Suspended w => w
  end.

(** *** The notifier *)

(** [NotificationManager.showNotification(...)], as [activities.js] and
    [portfolio.js] write it. In these scripts the name [NotificationManager]
    is the class declared by the notification script, whose
    [showNotification], [showLoadingNotification] and
    [updateLoadingNotification] are methods of its instances; the instance
    is only stored in [window.NotificationManager], which the class
    declaration shadows. The property read from the class is [undefined] and
    the call throws; no toast is shown. *)
Definition showNotification (message type title : string) (w : World) : Completion :=
  Throw (TypeError "NotificationManager.showNotification is not a function") w.

Definition showLoadingNotification (message : string) (w : World) : Completion :=
  Throw (TypeError "NotificationManager.showLoadingNotification is not a function") w.

Definition updateLoadingNotification (message type : string) (w : World) : Completion :=
  Throw (TypeError "NotificationManager.updateLoadingNotification is not a function") w.

(** [await Utils.makeRequest(...)]: the request goes out and the caller is
    suspended on it. *)
Definition await (k : Continuation) (r : Request) (w : World) : World :=
  mkWorld (manager w) (isGenerating w) (page w) (requests w ++ [r])%list
          (<[length (requests w) := k]> (awaiting w)) (toasts w)
          (loadingOverlay w) (uncaught w).

(** The [await] when the request has settled: it yields the response, or
    throws the error the request was rejected with. *)
Definition awaited (r : Response) (w : World) : Completion :=
  match r with
  | Resolved _ => Normal w
  | Rejected message => Throw (mkError "Error" message) w
  end.

(** [error.message || fallback]. *)
Definition messageOr (error : Error) (fallback : string) : string :=
  if JS.truthy (error_message error) then error_message error else fallback.

(** The state right after [new ActivityManager()] and
    [new PortfolioManager()] on a page: [init] has run
    [initializeMultiStepForm]. *)
Definition newActivityManager : ActivityManager :=
  mkActivityManager [] "all" 1 12 false None 1 3.

Definition newWorld (d : Document) : World :=
  mkWorld newActivityManager false d [] ∅ [] false [].

(** ** The file list *)

Definition displaySelectedFiles (files : list File) (d : Document) : Document :=
  match selectedFiles d with
  | Some _ => set_selectedFiles (Some files) d
  | None => d
  end.

(** [handleFileDrop]: the input's list becomes the dropped files. [None]
    is the TypeError of assigning to a missing [#documents]. *)
Definition handleFileDrop (files : list File) (d : Document) : option Document :=
  match documents d with
  | Some _ => Some (displaySelectedFiles files (set_documents (Some files) d))
  | None => None
  end.

(** [handleFileSelect]: the browser has put the chosen files in the input;
    the handler shows [event.target.files]. *)
Definition handleFileSelect (d : Document) : Document :=
  displaySelectedFiles (default [] (documents d)) d.

(** The [forEach((file, i) => ...)] of [removeFile], from index [i] on:
    every file whose index differs from [index] is added to the new list. *)
Fixpoint keepOthers (index i : Z) (files : list File) : list File :=
  match files with
  | [] => []
  | file :: rest =>
      if negb (i =? index) then file :: keepOthers index (i + 1) rest
      else keepOthers index (i + 1) rest
  end.

Definition removeFile (index : Z) (d : Document) : option Document :=
  match documents d with
  | Some files =>
      let kept := keepOthers index 0 files in
      Some (displaySelectedFiles kept (set_documents (Some kept) d))
  | None => None
  end.

(** ** Payload assembly *)

(** The ids read by [collectFormData] and the part names they are sent
    under, in order. *)
Definition payloadFields : list (string * string) :=
  [("title", "activityTitle"); ("activityType", "activityType");
   ("description", "activityDescription"); ("startDate", "startDate");
   ("endDate", "endDate"); ("durationHours", "durationHours");
   ("venue", "venue"); ("organizer", "organizer");
   ("roleInActivity", "roleInActivity"); ("achievement", "achievement");
   ("skillsGained", "skillsGained")].

(** [None] is the TypeError of reading [value] or [files] of a missing
    element. *)
Definition collectFormData (d : Document) : option (list FormEntry) :=
  texts ← mapM (fun '(name, id) =>
                  i ← getElementById id d;
                  Some (TextPart name (valueAt i d))) payloadFields;
  files ← documents d;
  Some (texts ++ map (FilePart "documents") files)%list.

(** ** The controller *)

Section Controller.

(** [new Date(s).valueOf()]: the time value of the date a string is parsed
    to, [None] for an Invalid Date (NaN). Which strings parse, beyond the
    ISO forms, is left to the host; the controller is modelled for any
    such function. *)
Variable Date_valueOf : string -> option Z.

(** [end < start] on two [Date] objects: a comparison of time values,
    false as soon as one of them is NaN. *)
Definition Date_lt (a b : string) : bool :=
  match Date_valueOf a, Date_valueOf b with
  | Some x, Some y => x <? y
  | _, _ => false
  end.

(** [validateDates]: [None] is the [undefined] it returns when one of the
    two date controls is missing. *)
Definition validateDates (d : Document) : option bool * Document :=
  match getElementById "startDate" d, getElementById "endDate" d with
  | Some startDate, Some endDate =>
      let startValue := valueAt startDate d in
      let endValue := valueAt endDate d in
      if JS.truthy startValue && JS.truthy endValue then
        if Date_lt endValue startValue
        then (Some false,
              showFieldError endDate "End date must be after start date" d)
        else (Some true, clearFieldError endDate d)
      else (Some true, d)
  | _, _ => (None, d)
  end.

(** The [fields.forEach] of [validateCurrentStep]. *)
Definition validateFields (fields : list nat) (d : Document) : bool * Document :=
  foldl (fun '(allValid, d) i =>
           let '(ok, d') := validateField i d in
           (if negb ok then false else allValid, d'))
        (true, d) fields.

(** [document.querySelector('.form-step[data-step="n"]')]. *)
Definition queryFormStep (n : Z) (d : Document) : option FormStep :=
  snd <$> list_find (fun st => data_step st = n) (formSteps d).

Definition validateCurrentStep (step : Z) (d : Document) : bool * Document :=
  match queryFormStep step d with
  | None => (true, d)
  | Some currentStepEl =>
      let '(allValid, d1) := validateFields (step_fields currentStepEl) d in
      if step =? 2 then
        let '(r, d2) := validateDates d1 in
        (match r with Some true => allValid | _ => false end, d2)
      else (allValid, d1)
  end.

(** *** Navigation. [updateStepDisplay] only toggles which step and which
    buttons are visible and is left out. When validation fails the call of
    the notifier throws, and the error leaves the listener. *)
Definition nextStep (w : World) : World :=
  let '(ok, d) := validateCurrentStep (currentStep (manager w)) (page w) in
  let w1 := set_page d w in
  if negb ok
  then unhandled
         (showNotification "Please fix the errors before proceeding" "warning" "" w1)
  else if currentStep (manager w1) <? totalSteps (manager w1)
  then set_manager (set_currentStep (currentStep (manager w1) + 1) (manager w1)) w1
  else w1.

Definition previousStep (w : World) : World :=
  if 1 <? currentStep (manager w)
  then set_manager (set_currentStep (currentStep (manager w) - 1) (manager w)) w
  else w.

(** [resetForm]: [form.reset()] puts every control back to its default
    and empties the file input; then the step, the rendered file entries
    and the error markers of the form are cleared. *)
Definition resetForm (w : World) : World :=
  let d := page w in
  if addActivityForm d then
    let d' :=
      mkDocument true
        (map (fun f => mkField (f_id f) (f_name f) (f_required f)
                               (f_default f) (f_default f) (f_parent f))
             (controls d))
        ∅ (withoutFormErrors (nodes d)) (formSteps d)
        (match documents d with Some _ => Some [] | None => None end)
        (match selectedFiles d with Some _ => Some [] | None => None end)
        (fileUploadArea d) in
    set_page d' (set_manager (set_currentStep 1 (manager w)) w)
  else w.

(** *** Loading activities *)

Definition loadActivities (w : World) : World :=
  let m := manager w in
  if isLoading m then w
  else
    let status :=
      if negb (String.eqb (currentFilter m) "all") then Some (currentFilter m)
      else None in
    let search :=
      match searchQuery m with
      | Some q => if JS.truthy q then Some q else None
      | None => None
      end in
    await AwaitLoad (GetActivities (currentPage m) (itemsPerPage m) status search)
      (set_manager (set_isLoading true m) w).

(** [loadActivities] from the [await] on. On success the list is stored
    and rendered, then [this.updatePagination], which the class does not
    define, throws. The [catch] logs the error and calls the notifier,
    which throws in its turn; the [finally] clears the flag on every path. *)
Definition loadActivities_resume (r : Response) (w : World) : World :=
  unhandled
    (tryCatchFinally
       (match r with
        | Resolved acts =>
            Throw (TypeError "this.updatePagination is not a function")
                  (set_manager (set_activities acts (manager w)) w)
        | Rejected message => Throw (mkError "Error" message) w
        end)
       (fun error => showNotification "Failed to load activities" "error" "")
       (fun w => set_manager (set_isLoading false (manager w)) w)).

Definition filterActivities (filter : string) (w : World) : World :=
  let m := manager w in
  loadActivities (set_manager (set_query filter (searchQuery m) m) w).

Definition handleSearch (q : string) (w : World) : World :=
  let m := manager w in
  loadActivities (set_manager (set_query (currentFilter m) (Some q) m) w).

(** [refreshActivities], called without [await]. *)
Definition refreshActivities (w : World) : Completion := Normal (loadActivities w).

(** *** Submission *)

(** [handleActivitySubmit] up to its [await]. A TypeError of
    [collectFormData] leaves the method before the [try]. *)
Definition handleActivitySubmit (w : World) : World :=
  let '(ok, d) := validateCurrentStep (currentStep (manager w)) (page w) in
  let w1 := set_page d w in
  if negb ok then w1
  else
    match collectFormData d with
    | None =>
        unhandled (Throw (TypeError "Cannot read properties of null") w1)
    | Some formData =>
        await AwaitSubmit (PostActivities formData) (set_loadingOverlay true w1)
    end.

(** [this.hideAddActivityModal()]: the class has no such method (it is a
    global function). *)
Definition hideAddActivityModal (w : World) : Completion :=
  Throw (TypeError "this.hideAddActivityModal is not a function") w.

(** [handleActivitySubmit] from the [await] on: the rest of the [try], the
    [catch] and the [finally]. *)
Definition handleActivitySubmit_resume (r : Response) (w : World) : World :=
  unhandled
    (tryCatchFinally
       (awaited r w ;;;
        showNotification
          "Activity submitted successfully! It will be reviewed by your institution."
          "success" "Activity Submitted" ;;;
        (fun w => Normal (resetForm w)) ;;;
        hideAddActivityModal ;;;
        refreshActivities)
       (fun error =>
          showNotification (messageOr error "Failed to submit activity")
            "error" "Submission Failed")
       (set_loadingOverlay false)).

(** *** Portfolio generation ([PortfolioManager.generatePortfolio]) *)

(** The [catch] and the [finally] of [generatePortfolio]. *)
Definition generationFailed (error : Error) : World -> Completion :=
  showNotification (messageOr error "Failed to generate portfolio")
    "error" "Generation Failed".

(** [generatePortfolio] up to its [await]. *)
Definition generatePortfolio (template : Template) (w : World) : World :=
  if isGenerating w
  then unhandled
         (showNotification "Portfolio generation already in progress" "warning" "" w)
  else
    unhandled
      (tryCatchFinally
         (showLoadingNotification "Preparing your portfolio data..."
            (set_isGenerating true w) ;;;
          (fun w => Suspended (await AwaitGenerate (PostPortfolioGenerate template) w)))
         generationFailed
         (set_isGenerating false)).

(** [generatePortfolio] from the [await] on; [handleGenerationSuccess]
    renders the result. *)
Definition generatePortfolio_resume (r : Response) (w : World) : World :=
  unhandled
    (tryCatchFinally
       (awaited r w ;;;
        updateLoadingNotification "Portfolio generated successfully!" "success")
       generationFailed
       (set_isGenerating false)).

(** *** The event loop *)

(** What can happen on the page: the user acts on the wizard, or an
    outstanding request settles. *)
Inductive Event : Type :=
| Submit
| ClickNext
| ClickPrevious
| Blur (i : nat)
| Input (i : nat) (value : string)
| ChangeDate
| DropFiles (files : list File)
| PickFiles (files : list File)
| ClickRemoveFile (index : Z)
| ClickFilter (filter : string)
| Search (q : string)
| ClickGenerate
| Settle (request : nat) (r : Response).

(** Typing in a control: the browser stores the value, then the [input]
    listener clears the control's error. *)
Definition typeInto (i : nat) (value : string) (d : Document) : Document :=
  match controls d !! i with
  | Some f =>
      clearFieldError i
        (set_controls
           (<[i := mkField (f_id f) (f_name f) (f_required f) value
                           (f_default f) (f_parent f)]> (controls d)) d)
  | None => d
  end.

(** [setupFileUpload] installs the [change] and [drop] listeners only on a
    page that has both [#documents] and a [.file-upload-area]. *)
Definition fileListeners (d : Document) : bool :=
  bool_decide (is_Some (documents d)) && fileUploadArea d.

Definition resume (k : Continuation) (r : Response) (w : World) : World :=
  match k with
  | AwaitSubmit => handleActivitySubmit_resume r w
  | AwaitLoad => loadActivities_resume r w
  | AwaitGenerate => generatePortfolio_resume r w
  end.

Definition settle (request : nat) (r : Response) (w : World) : World :=
  match awaiting w !! request with
  | Some k => resume k r (set_awaiting (delete request (awaiting w)) w)
  | None => w
  end.

(** A pick puts the chosen files in the input, whether or not the page
    listens; the remove button of a rendered entry calls [removeFile]; the
    click listener of [#generatePortfolioBtn] hands the click event to
    [generatePortfolio]. *)
Definition step (w : World) (e : Event) : World :=
  match e with
  | Submit => handleActivitySubmit w
  | ClickNext => nextStep w
  | ClickPrevious => previousStep w
  | Blur i => set_page (snd (validateField i (page w))) w
  | Input i value => set_page (typeInto i value (page w)) w
  | ChangeDate => set_page (snd (validateDates (page w))) w
  | DropFiles files =>
      if fileListeners (page w)
      then set_page (default (page w) (handleFileDrop files (page w))) w
      else w
  | PickFiles files =>
      match documents (page w) with
      | Some _ =>
          let d := set_documents (Some files) (page w) in
          set_page (if fileListeners (page w) then handleFileSelect d else d) w
      | None => w
      end
  | ClickRemoveFile index =>
      match removeFile index (page w) with
      | Some d => set_page d w
      | None => unhandled (Throw (TypeError "Cannot read properties of null") w)
      end
  | ClickFilter filter => filterActivities filter w
  | Search q => handleSearch q w
  | ClickGenerate => generatePortfolio ClickEvent w
  | Settle request r => settle request r w
  end.

Definition run (w : World) (events : list Event) : World := foldl step w events.

End Controller.

(** ** What the properties are stated with *)

(** The state of the wizard as the specification names it: the step, the
    values of the controls, the error markers, and the selected files. *)
Record FormState : Type := mkFormState {
  fs_currentStep : Z;
  fs_totalSteps : Z;
  fs_fields : list string;
  fs_errorClass : gset nat;
  fs_fieldErrors : gmap nat (list string);
  fs_selectedFiles : option (list File);
  fs_renderedFiles : option (list File)
}.

Definition formState (w : World) : FormState :=
  mkFormState (currentStep (manager w)) (totalSteps (manager w))
    (map f_value (controls (page w)))
    (errorClass (page w)) (formErrors (page w))
    (documents (page w)) (selectedFiles (page w)).

(** Everything of a document but its error markers. *)
Definition content (d : Document)
  : bool * list Field * list FormStep * option (list File) * option (list File) :=
  (addActivityForm d, controls d, formSteps d, documents d, selectedFiles d).

(** No element holds more than one error node, at whatever depth below
    it. *)
Definition markers_wf (d : Document) : Prop :=
  map_Forall (fun _ l => length l = 1%nat) (formErrors d).

(** [1 <= currentStep <= totalSteps]. *)
Definition stepInRange (w : World) : Prop :=
  1 <= currentStep (manager w) <= totalSteps (manager w).

(** The requests of a world that post an activity, load the list, or ask
    for a portfolio. *)
Definition isPostActivities (r : Request) : bool :=
  match r with PostActivities _ => true | _ => false end.

Definition isGetActivities (r : Request) : bool :=
  match r with GetActivities _ _ _ _ => true | _ => false end.

Definition isPostPortfolioGenerate (r : Request) : bool :=
  match r with PostPortfolioGenerate _ => true | _ => false end.

Definition countRequests (p : Request -> bool) (w : World) : nat :=
  length (filter (fun r => p r = true) (requests w)).

(** *** Requests in flight *)

(** A method of kind [k] is suspended on some request. *)
Definition inFlight (k : Continuation) (w : World) : Prop :=
  exists rq, awaiting w !! rq = Some k.

(** At most one method of kind [k] is suspended. *)
Definition singleFlight (k : Continuation) (w : World) : Prop :=
  forall rq rq', awaiting w !! rq = Some k -> awaiting w !! rq' = Some k -> rq = rq'.

(** What the guards see of a world. *)
Definition net (w : World) : bool * bool * list Request * gmap nat Continuation :=
  (isLoading (manager w), isGenerating w, requests w, awaiting w).

(** The in-progress flags tell the truth: every suspended method waits for
    a request that was issued, [isLoading] is set exactly while a
    [loadActivities] is suspended, [isGenerating] exactly while a
    [generatePortfolio] is, and of each there is at most one. *)
Definition guarded (w : World) : Prop :=
  (forall rq, is_Some (awaiting w !! rq) -> (rq < length (requests w))%nat) /\
  (isLoading (manager w) = true <-> inFlight AwaitLoad w) /\
  singleFlight AwaitLoad w /\
  (isGenerating w = true <-> inFlight AwaitGenerate w) /\
  singleFlight AwaitGenerate w.

(** *** The verdict of a step, read off the values alone *)

Definition fieldPasses (d : Document) (i : nat) : bool :=
  match controls d !! i with
  | Some f => fst (fieldVerdict f)
  | None => true
  end.

(** *** The rule table of the specification *)

(** "numeric and >= 1": the string denotes a number, and that number is not
    below one. *)
Definition numericAtLeastOne (value : string) : bool :=
  match JS.Number value with
  | JS.NaN => false
  | n => negb (JS.belowOne n)
  end.

(** The table of the specification, row by row: the message of the rule a
    control fails, [None] when it passes. *)
Definition ruleTable (f : Field) : option string :=
  let value := JS.trim (f_value f) in
  if f_required f && String.eqb value "" then Some "This field is required"
  else if String.eqb value "" then None
  else if String.eqb (f_name f) "title" && (Z.of_nat (String.length value) <? 3)
  then Some "Title must be at least 3 characters"
  else if String.eqb (f_name f) "description" && (Z.of_nat (String.length value) <? 10)
  then Some "Description must be at least 10 characters"
  else if String.eqb (f_name f) "durationHours" && negb (numericAtLeastOne value)
  then Some "Duration must be a positive number"
  else None.

(** What [validateField] reports for a control, in the same form. *)
Definition reported (f : Field) : option string :=
  let '(isValid, errorMessage) := fieldVerdict f in
  if isValid then None else Some errorMessage.

(** *** A page to run the controller on *)

(** The eleven controls of the wizard, three steps, each control in a
    container of its own: id, name, whether required, step. *)
Definition wizardControls : list (string * string * bool) :=
  [("activityTitle", "title", true);
   ("activityType", "activityType", true);
   ("activityDescription", "description", true);
   ("startDate", "startDate", true);
   ("endDate", "endDate", false);
   ("durationHours", "durationHours", false);
   ("venue", "venue", false);
   ("organizer", "organizer", false);
   ("roleInActivity", "roleInActivity", false);
   ("achievement", "achievement", false);
   ("skillsGained", "skillsGained", false)].

Definition wizardNodes : Nodes :=
  foldr (fun key next => Element key NoNode next) NoNode (seq 0 11).

Definition wizardPage (values : list string) (files : list File) : Document :=
  mkDocument true
    (imap (fun i '(id, name, required) =>
             mkField id name required (default "" (values !! i)) "" i)
          wizardControls)
    ∅ wizardNodes
    [mkFormStep 1 [0; 1; 2]%nat; mkFormStep 2 [3; 4; 5; 6; 7; 8]%nat;
     mkFormStep 3 [9; 10]%nat]
    (Some files) (Some files) true.

Definition filledValues : list string :=
  ["Hackathon"; "technical"; "National level hackathon"; "2025-03-10";
   "2025-03-15"; "3"; "Delhi"; "MoE"; "Participant"; "Finalist"; "Rocq"].

(** The same with the end date before the start date, and with a title of
    two characters. *)
Definition reversedDates : list string :=
  ["Hackathon"; "technical"; "National level hackathon"; "2025-03-10";
   "2025-03-05"; "3"].

Definition shortTitle : list string :=
  ["AB"; "technical"; "National level hackathon"].

Definition certificate : File := mkFile "certificate.pdf" 52000 "application/pdf".
Definition photo : File := mkFile "photo.png" 204800 "image/png".
Definition report : File := mkFile "report.docx" 9000 "application/msword".

(** A control standing alone, for the rules of a single field. *)
Definition control (name value : string) (required : bool) : Field :=
  mkField name name required value "" 0.

(** The wizard on its last step with every control filled in. *)
Definition atLastStep : World :=
  set_manager (set_currentStep 3 newActivityManager)
    (newWorld (wizardPage filledValues [certificate])).

(** *** Further notions *)

(** The name a part of the payload is sent under. *)
Definition partName (e : FormEntry) : string :=
  match e with
  | TextPart name _ => name
  | FilePart name _ => name
  end.

(** The entries rendered in [#selectedFiles], when that container exists,
    are the files of the input. *)
Definition filesInSync (d : Document) : Prop :=
  match selectedFiles d with
  | Some shown => documents d = Some shown
  | None => True
  end.

(** The [status] and [search] parameters [loadActivities] sends for a
    filter and a search text. *)
Definition statusParam (filter : string) : option string :=
  if String.eqb filter "all" then None else Some filter.

Definition searchParam (q : option string) : option string :=
  match q with
  | Some text => if JS.truthy text then Some text else None
  | None => None
  end.

(** ** Helpers of the pages *)

(** [s.startsWith(prefix)] and [s.includes(sub)]. *)
Fixpoint startsWith (s prefix : string) : bool :=
  match prefix, s with
  | EmptyString, _ => true
  | String c p, String c' s' => Ascii.eqb c c' && startsWith s' p
  | String _ _, EmptyString => false
  end.

Fixpoint includes (s sub : string) : bool :=
  startsWith s sub ||
  match s with
  | String _ t => includes t sub
  | EmptyString => false
  end.

(** [s.split(sep)] for a separator of one code unit: never empty, the
    empty string gives one empty piece. *)
Fixpoint splitOn (sep : ascii) (s : string) : list string :=
  match s with
  | EmptyString => [EmptyString]
  | String c t =>
      if Ascii.eqb c sep then EmptyString :: splitOn sep t
      else match splitOn sep t with
           | h :: r => String c h :: r
           | [] => [String c EmptyString]
           end
  end.

(** [ActivityManager.getFileIcon]: the first rule that matches decides. *)
Definition getFileIcon (mimeType : string) : string :=
  if startsWith mimeType "image/" then "image"
  else if includes mimeType "pdf" then "file-pdf"
  else if includes mimeType "word" then "file-word"
  else if includes mimeType "text" then "file-alt"
  else "file".

(** [Utils.escapeHtml]: the text is stored as the [textContent] of a fresh
    [div] and read back as [innerHTML]; serialising a text node replaces
    [&], [<], [>] and the no-break space, and nothing else. *)
Definition escapeCodeUnit (c : ascii) : string :=
  if Ascii.eqb c "&" then "&amp;"
  else if Ascii.eqb c "<" then "&lt;"
  else if Ascii.eqb c ">" then "&gt;"
  else if (nat_of_ascii c =? 160)%nat then "&nbsp;"
  else String c EmptyString.

Fixpoint escapeHtml (text : string) : string :=
  match text with
  | EmptyString => EmptyString
  | String c t => escapeCodeUnit c ++ escapeHtml t
  end.

(** Reading the four entities back, as the parser of the browser does with
    what [escapeHtml] produced. *)
Fixpoint unescapeHtml (l : list ascii) : list ascii :=
  match l with
  | [] => []
  | c :: t =>
      if Ascii.eqb c "&" then
        match t with
        | "a"%char :: "m"%char :: "p"%char :: ";"%char :: r => "&"%char :: unescapeHtml r
        | "l"%char :: "t"%char :: ";"%char :: r => "<"%char :: unescapeHtml r
        | "g"%char :: "t"%char :: ";"%char :: r => ">"%char :: unescapeHtml r
        | "n"%char :: "b"%char :: "s"%char :: "p"%char :: ";"%char :: r =>
            ascii_of_nat 160 :: unescapeHtml r
        | _ => c :: unescapeHtml t
        end
      else c :: unescapeHtml t
  end.

(** The tests of [Utils.validatePassword]: [/[A-Z]/], [/[a-z]/], [/\d/] and
    the class of special characters, each true when some code unit of the
    password is in the class. *)
Definition inRange (lo hi : nat) (c : ascii) : bool :=
  (lo <=? nat_of_ascii c)%nat && (nat_of_ascii c <=? hi)%nat.

Definition isSpecial (c : ascii) : bool :=
  existsb (Ascii.eqb c) (list_ascii_of_string "!@#$%^&*(),.?:{}|<>") ||
  (nat_of_ascii c =? 34)%nat.

Definition test (p : ascii -> bool) (s : string) : bool :=
  existsb p (list_ascii_of_string s).

Definition hasUpperCase (password : string) : bool := test (inRange 65 90) password.
Definition hasLowerCase (password : string) : bool := test (inRange 97 122) password.
Definition hasNumbers (password : string) : bool := test (inRange 48 57) password.
Definition hasSpecial (password : string) : bool := test isSpecial password.

Definition passwordScore (password : string) : Z :=
  let len := Z.of_nat (String.length password) in
  (if 8 <=? len then 1 else 0) + (if hasUpperCase password then 1 else 0) +
  (if hasLowerCase password then 1 else 0) + (if hasNumbers password then 1 else 0) +
  (if hasSpecial password then 1 else 0) + (if 12 <=? len then 1 else 0).

Definition getPasswordStrength (password : string) : string :=
  let score := passwordScore password in
  if score <? 3 then "weak" else if score <? 5 then "medium" else "strong".

Record PasswordCheck : Type := mkPasswordCheck {
  isValid : bool;
  minLength : bool;
  criteriaUpperCase : bool;
  criteriaLowerCase : bool;
  criteriaNumbers : bool;
  criteriaSpecial : bool;
  strength : string
}.

Definition validatePassword (password : string) : PasswordCheck :=
  let long := 8 <=? Z.of_nat (String.length password) in
  mkPasswordCheck
    (long && hasUpperCase password && hasLowerCase password && hasNumbers password)
    long (hasUpperCase password) (hasLowerCase password) (hasNumbers password)
    (hasSpecial password) (getPasswordStrength password).

(** [SmartStudentHubApp.getCurrentPageName] on [window.location.pathname]:
    the last piece of the path, up to its first dot. *)
Definition getCurrentPageName (path : string) : string :=
  let page := default "" (head (splitOn "." (default "" (last (splitOn "/" path))))) in
  if String.eqb page "" || String.eqb page "index" then "home" else page.

(** ** Portfolio statistics ([PortfolioManager.calculateStats]) *)

(** What [calculateStats] reads of an activity. The numeric fields are
    integers, or absent; the two sums are those of the language as long as
    they stay within the integers a double holds exactly. *)
Record PortfolioActivity : Type := mkPortfolioActivity {
  activity_type : string;
  duration_hours : option Z;
  points_earned : option Z;
  skills_gained : option string
}.

(** The names every object inherits from [Object.prototype]. Reading one
    of them from a fresh object literal does not give [undefined], so a
    counter kept under such a name is not a number; the model stops there. *)
Definition objectPrototypeKeys : list string :=
  ["constructor"; "__defineGetter__"; "__defineSetter__"; "hasOwnProperty";
   "__lookupGetter__"; "__lookupSetter__"; "isPrototypeOf";
   "propertyIsEnumerable"; "toString"; "valueOf"; "__proto__"; "toLocaleString"].

Definition plainKey (k : string) : bool :=
  negb (existsb (String.eqb k) objectPrototypeKeys).

(** [stats.by_type[t] = (stats.by_type[t] || 0) + 1]. *)
Definition countType (by_type : gmap string Z) (t : string) : gmap string Z :=
  <[t := default 0 (by_type !! t) + 1]> by_type.

(** [skillCounts[skill] = (skillCounts[skill] || 0) + 1] on an object whose
    keys are kept in the order they were first written. *)
Fixpoint bump (skill : string) (counts : list (string * Z)) : list (string * Z) :=
  match counts with
  | [] => [(skill, 1)]
  | (k, n) :: rest =>
      if String.eqb k skill then (k, n + 1) :: rest
      else (k, n) :: bump skill rest
  end.

(** A key that is an array index: a canonical decimal numeral below
    [2^32 - 1]. *)
Definition arrayIndex (k : string) : option Z :=
  match JS.spanDigits 10 0 0 (list_ascii_of_string k) with
  | (v, S n, []) =>
      if (negb (startsWith k "0") || (n =? 0)%nat) && (v <? 4294967295)
      then Some v else None
  | _ => None
  end.

(** A stable insertion sort: [x], which stood before everything in the
    sorted list, goes in front of the first element it does not have to
    follow. *)
Fixpoint insertBy {A : Type} (le : A -> A -> bool) (x : A) (l : list A) : list A :=
  match l with
  | [] => [x]
  | y :: r => if le x y then x :: y :: r else y :: insertBy le x r
  end.

Definition sortBy {A : Type} (le : A -> A -> bool) (l : list A) : list A :=
  foldr (insertBy le) [] l.

(** [Object.entries]: the array-index keys in ascending order, then the
    other keys in the order they were created. *)
Definition ownEntries (counts : list (string * Z)) : list (string * Z) :=
  (sortBy (fun a b => default 0 (arrayIndex a.1) <=? default 0 (arrayIndex b.1))
          (filter (fun e => is_Some (arrayIndex e.1)) counts) ++
   filter (fun e => ~ is_Some (arrayIndex e.1)) counts)%list.

(** The skills of all activities: each non-empty [skills_gained] is split
    at the commas and the pieces are trimmed. *)
Definition allSkills (acts : list PortfolioActivity) : list string :=
  flat_map (fun a =>
              match skills_gained a with
              | Some text => if JS.truthy text then map JS.trim (splitOn "," text) else []
              | None => []
              end) acts.

Record Stats : Type := mkStats {
  total_activities : Z;
  total_hours : Z;
  total_points : Z;
  by_type : gmap string Z;
  skills : list (string * Z)
}.

(** [calculateStats]. The comparator of the sort is [b - a] on the counts,
    the sort is stable, and the first ten entries are kept. [None] when an
    activity type or a skill is one of the inherited names. *)
Definition calculateStats (acts : list PortfolioActivity) : option Stats :=
  if forallb plainKey (map activity_type acts) && forallb plainKey (allSkills acts)
  then
    let skillCounts := foldl (fun counts skill => bump skill counts) [] (allSkills acts) in
    Some (mkStats
            (Z.of_nat (length acts))
            (foldl (fun sum a => sum + default 0 (duration_hours a)) 0 acts)
            (foldl (fun sum a => sum + default 0 (points_earned a)) 0 acts)
            (foldl countType ∅ (map activity_type acts))
            (take 10 (sortBy (fun a b => b.2 - a.2 <=? 0) (ownEntries skillCounts))))
  else None.

(** How often a value occurs in a list. *)
Definition occurrences (s : string) (l : list string) : Z :=
  Z.of_nat (length (filter (fun x => x = s) l)).

(** ** [Utils.debounce] *)

(** The closure [debounce] returns keeps one timer. A call clears it and
    starts a new one that remembers the arguments of this call; when a timer
    expires its callback invokes [func] with them. [invoked] lists the
    invocations of [func] so far. *)
Record Debounced (A : Type) : Type := mkDebounced {
  pendingArgs : option A;
  invoked : list A
}.
Arguments mkDebounced {A} _ _.
Arguments pendingArgs {A} _.
Arguments invoked {A} _.

Inductive TimerEvent (A : Type) : Type :=
| Call (args : A)
| Expire.
Arguments Call {A} _.
Arguments Expire {A}.

Definition debounceStep {A : Type} (st : Debounced A) (ev : TimerEvent A) : Debounced A :=
  match ev with
  | Call args => mkDebounced (Some args) (invoked st)
  | Expire =>
      match pendingArgs st with
      | Some args => mkDebounced None (invoked st ++ [args])%list
      | None => st
      end
  end.

Definition debounce {A : Type} (events : list (TimerEvent A)) : Debounced A :=
  foldl debounceStep (mkDebounced None []) events.

(** The arguments of the calls among some events, in order. *)
Definition callArgs {A : Type} (events : list (TimerEvent A)) : list A :=
  flat_map (fun ev => match ev with Call args => [args] | Expire => [] end) events.

(** ** [Utils.throttle] *)

(** The closure [throttle] returns keeps the flag [inThrottle]. A call
    with the flag down calls [func], raises the flag and starts the timer
    that lowers it; a call with the flag up does nothing. [passed] lists the
    calls of [func] so far. *)
Record Throttled (A : Type) : Type := mkThrottled {
  inThrottle : bool;
  passed : list A
}.
Arguments mkThrottled {A} _ _.
Arguments inThrottle {A} _.
Arguments passed {A} _.

Definition throttleStep {A : Type} (st : Throttled A) (ev : TimerEvent A) : Throttled A :=
  match ev with
  | Call args =>
      if inThrottle st then st
      else mkThrottled true (passed st ++ [args])%list
  | Expire => mkThrottled false (passed st)
  end.

Definition throttle {A : Type} (events : list (TimerEvent A)) : Throttled A :=
  foldl throttleStep (mkThrottled false []) events.

(** The number of expiries among some events. *)
Definition expiries {A : Type} (events : list (TimerEvent A)) : nat :=
  length (List.filter (fun ev => match ev with Expire => true | Call _ => false end) events).

(** ** [Utils.validateEmail] *)

(** Regular expressions without captures, matched against the whole text
    by derivatives. *)
Inductive regex : Type :=
| Void
| Eps
| Class (p : ascii -> bool)
| Seq (r1 r2 : regex)
| Alt (r1 r2 : regex)
| Star (r : regex).

Fixpoint nullable (r : regex) : bool :=
  match r with
  | Void => false
  | Eps => true
  | Class _ => false
  | Seq r1 r2 => nullable r1 && nullable r2
  | Alt r1 r2 => nullable r1 || nullable r2
  | Star _ => true
  end.

Fixpoint deriv (c : ascii) (r : regex) : regex :=
  match r with
  | Void => Void
  | Eps => Void
  | Class p => if p c then Eps else Void
  | Seq r1 r2 =>
      if nullable r1 then Alt (Seq (deriv c r1) r2) (deriv c r2)
      else Seq (deriv c r1) r2
  | Alt r1 r2 => Alt (deriv c r1) (deriv c r2)
  | Star r1 => Seq (deriv c r1) (Star r1)
  end.

Definition regexTest (r : regex) (text : string) : bool :=
  nullable (foldl (fun r c => deriv c r) r (list_ascii_of_string text)).

Definition Plus (r : regex) : regex := Seq r (Star r).

(** The class [[^\s@]]. *)
Definition notSpaceNorAt (c : ascii) : bool :=
  negb (JS.isWhiteSpace c) && negb (Ascii.eqb c "@").

(** [/^[^\s@]+@[^\s@]+\.[^\s@]+$/]. *)
Definition emailRegex : regex :=
  Seq (Plus (Class notSpaceNorAt))
    (Seq (Class (Ascii.eqb "@"))
       (Seq (Plus (Class notSpaceNorAt))
          (Seq (Class (Ascii.eqb ".")) (Plus (Class notSpaceNorAt))))).

Definition validateEmail (email : string) : bool := regexTest emailRegex email.

(** What a regular expression matches. *)
Inductive Matches : regex -> list ascii -> Prop :=
| MEps : Matches Eps []
| MClass p c : p c = true -> Matches (Class p) [c]
| MSeq r1 r2 l1 l2 :
    Matches r1 l1 -> Matches r2 l2 -> Matches (Seq r1 r2) (l1 ++ l2)%list
| MAltL r1 r2 l : Matches r1 l -> Matches (Alt r1 r2) l
| MAltR r1 r2 l : Matches r2 l -> Matches (Alt r1 r2) l
| MStarNil r : Matches (Star r) []
| MStarApp r l1 l2 :
    Matches r l1 -> Matches (Star r) l2 -> Matches (Star r) (l1 ++ l2)%list.

(** A non-empty run of code units that are neither white space nor [@]. *)
Definition emailPart (s : string) : Prop :=
  s <> "" /\ Forall (fun c => notSpaceNorAt c = true) (list_ascii_of_string s).

(** *** Data for the examples *)

Definition hackathon : PortfolioActivity :=
  mkPortfolioActivity "technical" (Some 3) None (Some "rocq, js,  7 ,js").
Definition tournament : PortfolioActivity :=
  mkPortfolioActivity "sports" None (Some 5) (Some "js,teamwork,7,rocq,10").
Definition seminar : PortfolioActivity :=
  mkPortfolioActivity "technical" (Some 4) (Some 2) None.

(** Two controls in one container, both left blank though required. *)
Definition sharedRow : Document :=
  mkDocument true
    [mkField "venue" "venue" true "" "" 0; mkField "organizer" "organizer" true "" "" 0]
    ∅ (Element 0 NoNode NoNode) [mkFormStep 1 [0; 1]%nat] (Some []) (Some []) true.


(** A second step without its date controls. *)
Definition noDates : Document :=
  mkDocument true [mkField "venue" "venue" false "Delhi" "" 0]
    ∅ (Element 0 NoNode NoNode) [mkFormStep 2 [0%nat]] (Some []) (Some []) true.

Definition atStepTwo : World :=
  set_manager (set_currentStep 2 newActivityManager) (newWorld noDates).

(** The wizard on its second step, every control filled in, with a given
    text in the duration control. *)
Definition onStepTwoWith (duration : string) : World :=
  set_manager (set_currentStep 2 newActivityManager)
    (newWorld (wizardPage
                 ["Hackathon"; "technical"; "National level hackathon"; "2025-03-10";
                  "2025-03-15"; duration; "Delhi"; "MoE"; "Participant"] [])).

(** * Properties *)

(** ** The file list *)

Lemma keepOthers_before (files : list File) (index i : Z) :
  index < i -> keepOthers index i files = files.
Proof.
  revert i; induction files as [|file rest IH]; intros i Hlt; simpl; [done|].
  destruct (Z.eqb_spec i index) as [->|_]; [lia|].
  simpl. f_equal. apply IH. lia.
Qed.

Lemma keepOthers_beyond (files : list File) (index i : Z) :
  i + Z.of_nat (length files) <= index -> keepOthers index i files = files.
Proof.
  revert i; induction files as [|file rest IH]; intros i Hle; simpl in *; [done|].
  destruct (Z.eqb_spec i index) as [->|_]; [lia|].
  simpl. f_equal. apply IH. lia.
Qed.

Lemma keepOthers_delete (files : list File) (k : nat) (i : Z) :
  (k < length files)%nat ->
  keepOthers (i + Z.of_nat k) i files = delete k files.
Proof.
  revert k i; induction files as [|file rest IH]; intros k i Hk; simpl in *; [lia|].
  destruct k as [|k].
  - replace (i + Z.of_nat 0) with i by lia. rewrite Z.eqb_refl. simpl.
    apply keepOthers_before. lia.
  - destruct (Z.eqb_spec i (i + Z.of_nat (S k))) as [E|_]; [lia|].
    simpl. f_equal.
    replace (i + Z.of_nat (S k)) with ((i + 1) + Z.of_nat k) by lia.
    apply IH. lia.
Qed.

(** C9. For an index outside the bounds of the file list, [removeFile]
    raises nothing and leaves the list of the input as it was; the entries
    shown are rendered again from that same list. *)
Theorem removeFile_out_of_range (d : Document) (files : list File) (index : Z) :
  documents d = Some files ->
  index < 0 \/ Z.of_nat (length files) <= index ->
  removeFile index d = Some (displaySelectedFiles files d) /\
  documents (displaySelectedFiles files d) = Some files /\
  content (displaySelectedFiles files d)
  = (addActivityForm d, controls d, formSteps d, Some files,
     match selectedFiles d with Some _ => Some files | None => None end).
Proof.
  intros Hdocs Hrange. unfold removeFile. rewrite Hdocs.
  assert (keepOthers index 0 files = files) as ->.
  { destruct Hrange; [apply keepOthers_before | apply keepOthers_beyond]; lia. }
  assert (set_documents (Some files) d = d) as ->.
  { destruct d; simpl in *; by subst. }
  split; [done|].
  unfold displaySelectedFiles, content.
  destruct d as [? ? ? ? ? ? [shown|] ?]; simpl in *; by subst.
Qed.

Lemma removeFile_out_of_range_witness :
  removeFile 3 (wizardPage filledValues [certificate; photo; report])
  = Some (wizardPage filledValues [certificate; photo; report]) /\
  removeFile (-1) (wizardPage filledValues [certificate; photo; report])
  = Some (wizardPage filledValues [certificate; photo; report]).
Proof.
  split.
  - destruct (removeFile_out_of_range
                (wizardPage filledValues [certificate; photo; report])
                [certificate; photo; report] 3) as [H _];
      [reflexivity | right; simpl; lia | exact H].
  - destruct (removeFile_out_of_range
                (wizardPage filledValues [certificate; photo; report])
                [certificate; photo; report] (-1)) as [H _];
      [reflexivity | left; lia | exact H].
Defined.

(** C8, as the specification states it, fails: dropping files onto a list
    that already holds one does not append to it. *)
Lemma handleFileDrop_does_not_append :
  ~ (forall (d : Document) (old files : list File),
        documents d = Some old ->
        exists d', handleFileDrop files d = Some d' /\
                   documents d' = Some (old ++ files)%list).
Proof.
  intros H.
  destruct (H (wizardPage filledValues [certificate]) [certificate]
              [photo; report] eq_refl) as (d' & Hdrop & Hdocs).
  vm_compute in Hdrop. injection Hdrop as <-. vm_compute in Hdocs. discriminate.
Qed.

(** C8, amended. Dropping files replaces the list of the input by the
    dropped files, in their order; [removeFile] with an index in range
    removes exactly the file at that index and keeps the others in their
    order; three files dropped at once and index 1 removed leave the
    files that were at 0 and 2, at 0 and 1. *)
Theorem file_list_order (d : Document) (old files : list File) :
  documents d = Some old ->
  (exists d', handleFileDrop files d = Some d' /\ documents d' = Some files) /\
  (forall k : nat, (k < length old)%nat ->
     exists d', removeFile (Z.of_nat k) d = Some d' /\
                documents d' = Some (delete k old) /\
                (forall j, (j < k)%nat -> delete k old !! j = old !! j) /\
                (forall j, (k <= j)%nat -> delete k old !! j = old !! S j)) /\
  (forall a b c : File,
     exists d1 d2, handleFileDrop [a; b; c] d = Some d1 /\
                   removeFile 1 d1 = Some d2 /\
                   documents d2 = Some [a; c]).
Proof.
  intros Hdocs. split; [|split].
  - unfold handleFileDrop. rewrite Hdocs. eexists; split; [done|].
    unfold displaySelectedFiles. by destruct (selectedFiles _).
  - intros k Hk. unfold removeFile. rewrite Hdocs.
    pose proof (keepOthers_delete old k 0 Hk) as E. rewrite Z.add_0_l in E. rewrite E.
    eexists; split; [done|]. split.
    + unfold displaySelectedFiles. by destruct (selectedFiles _).
    + split; intros j Hj.
      * by apply list_lookup_delete_lt.
      * by apply list_lookup_delete_ge.
  - intros a b c. unfold handleFileDrop, removeFile, displaySelectedFiles.
    rewrite Hdocs.
    destruct d as [? ? ? ? ? ? [shown|] ?]; simpl;
      (eexists; eexists; split; [reflexivity|]; simpl; split; reflexivity).
Qed.

Lemma file_list_order_witness :
  exists d1 d2,
    handleFileDrop [certificate; photo; report] (wizardPage filledValues []) = Some d1 /\
    removeFile 1 d1 = Some d2 /\
    documents d2 = Some [certificate; report].
Proof.
  exact (proj2 (proj2 (file_list_order (wizardPage filledValues []) [] []
                         eq_refl)) certificate photo report).
Defined.

(** ** The built-ins on examples *)

Lemma builtins_examples :
  JS.trim "  ab c " = "ab c" /\
  JS.Number "12.50" = JS.Finite 1250 (-2) /\
  JS.Number "5.e3" = JS.Finite 5 3 /\
  JS.Number "0x1F" = JS.Finite 31 0 /\
  JS.Number "-Infinity" = JS.Infinity true /\
  JS.Number "abc" = JS.NaN /\ JS.Number "." = JS.NaN /\
  JS.Number "1e" = JS.NaN /\ JS.Number "-0x10" = JS.NaN /\
  JS.Number "1 2" = JS.NaN /\
  JS.parseInt "-5" = Some (-5) /\ JS.parseInt "12px" = Some 12 /\
  JS.parseInt "0.9" = Some 0 /\ JS.parseInt "0x1F" = Some 31 /\
  JS.parseInt "abc" = None /\
  isoDate "1970-01-02" = Some 86400000 /\
  isoDate "2024-02-29" = Some 1709164800000.
Proof. repeat split; reflexivity. Qed.

(** ** The rules of a single field *)

Lemma truthy_eqb (s : string) : JS.truthy s = negb (String.eqb s "").
Proof. by destruct s. Qed.

Lemma truthy_nonempty (s : string) : JS.truthy s = true <-> s <> "".
Proof. destruct s; simpl; split; intros; congruence. Qed.

(** Away from [durationHours] the verdict of [validateField] is the table
    of the specification row for row: the required rule, the title rule
    and the description rule, with their messages. *)
Lemma reported_matches_table (f : Field) :
  f_name f <> "durationHours" -> reported f = ruleTable f.
Proof.
  intros Hname. unfold reported, ruleTable, fieldVerdict.
  rewrite truthy_eqb.
  destruct (String.eqb_spec (f_name f) "durationHours") as [|_]; [done|].
  destruct (String.eqb_spec (f_name f) "title") as [->|_]; simpl.
  - destruct (String.eqb (JS.trim (f_value f)) ""), (f_required f),
      (Z.of_nat (String.length (JS.trim (f_value f))) <? 3); reflexivity.
  - destruct (String.eqb (JS.trim (f_value f)) ""), (f_required f),
      (String.eqb (f_name f) "description"),
      (Z.of_nat (String.length (JS.trim (f_value f))) <? 10); reflexivity.
Qed.

(** For [durationHours] the verdict is the table's as long as the two
    readings of the value agree: [isNaN] or [parseInt(value) < 1] on one
    side, "not numeric or below one" on the other. *)
Lemma reported_matches_table_duration (f : Field) :
  f_name f = "durationHours" ->
  JS.isNaN (JS.trim (f_value f)) || JS.ltOne (JS.parseInt (JS.trim (f_value f)))
  = negb (numericAtLeastOne (JS.trim (f_value f))) ->
  reported f = ruleTable f.
Proof.
  intros Hname Hagree. unfold reported, ruleTable, fieldVerdict.
  rewrite truthy_eqb, Hname, Hagree. simpl.
  destruct (String.eqb (JS.trim (f_value f)) ""), (f_required f),
    (numericAtLeastOne (JS.trim (f_value f))); reflexivity.
Qed.

(** The scenarios of the specification: ["AB"] fails the title rule and
    ["ABC"] passes; ["-5"] fails the duration rule and ["3"] passes; a
    required control left blank is reported as required. *)
Lemma rule_scenarios :
  reported (control "title" "AB" true) = Some "Title must be at least 3 characters" /\
  reported (control "title" "ABC" true) = None /\
  reported (control "description" "too short" true)
  = Some "Description must be at least 10 characters" /\
  reported (control "durationHours" "-5" false)
  = Some "Duration must be a positive number" /\
  reported (control "durationHours" "3" false) = None /\
  reported (control "venue" "   " true) = Some "This field is required" /\
  reported (control "venue" "   " false) = None.
Proof. repeat split; reflexivity. Qed.

(** C5 fails on the code for [durationHours]. The value ["-.5"] is a
    number ([Number] reads it as -5 * 10^-1, below one), so the table
    rejects it with "Duration must be a positive number"; [validateField]
    accepts it, because [isNaN] is false and [parseInt], which finds no
    digit after the sign, yields NaN, and [NaN < 1] is false. On the page
    the control ends up without any error marker. The value ["1e-5"] passes
    the same way, [parseInt] stopping at the exponent. *)
Theorem validateField_accepts_negative_duration :
  let f := control "durationHours" "-.5" false in
  JS.Number "-.5" = JS.Finite (-5) (-1) /\
  JS.isNaN "-.5" = false /\ JS.parseInt "-.5" = None /\
  ruleTable f = Some "Duration must be a positive number" /\
  fieldVerdict f = (true, "") /\
  reported f <> ruleTable f /\
  (let d := wizardPage ["Hackathon"; "technical"; "National level hackathon";
                        "2025-03-10"; "2025-03-15"; "-.5"] [] in
   validateField 5 d = (true, d)) /\
  ruleTable (control "durationHours" "1e-5" false)
  = Some "Duration must be a positive number" /\
  fieldVerdict (control "durationHours" "1e-5" false) = (true, "").
Proof. repeat split; try reflexivity. vm_compute. discriminate. Qed.


(** ** Error nodes *)

Lemma errorsIn_appendNodes (n more : Nodes) :
  errorsIn (appendNodes n more) = (errorsIn n ++ errorsIn more)%list.
Proof.
  induction n as [|message next IH|key children _ next IH]; simpl; [done| |].
  - by rewrite IH.
  - by rewrite IH, app_assoc.
Qed.

Lemma errorsIn_appendFormError (message : string) (n : Nodes) :
  errorsIn (appendFormError message n) = (errorsIn n ++ [message])%list.
Proof. unfold appendFormError. by rewrite errorsIn_appendNodes. Qed.

Lemma removeFirstFormError_errorsIn (n : Nodes) :
  match removeFirstFormError n with
  | Some n' => errorsIn n <> [] /\ errorsIn n' = drop 1 (errorsIn n)
  | None => errorsIn n = []
  end.
Proof.
  induction n as [|message next _|key children IHc next IHn]; simpl; [done|done|].
  destruct (removeFirstFormError children) as [children'|]; simpl.
  - destruct IHc as [Hne ->]. split.
    + intros H. apply app_eq_nil in H as [? _]. done.
    + destruct (errorsIn children); [done|]. done.
  - rewrite IHc. simpl.
    destruct (removeFirstFormError next) as [next'|]; simpl; [|done].
    by rewrite IHc.
Qed.

(** Removing the first error node removes the first text. *)
Lemma errorsIn_withoutFirstFormError (n : Nodes) :
  errorsIn (withoutFirstFormError n) = drop 1 (errorsIn n).
Proof.
  unfold withoutFirstFormError.
  pose proof (removeFirstFormError_errorsIn n) as H.
  destruct (removeFirstFormError n) as [n'|]; simpl.
  - by destruct H.
  - by rewrite H.
Qed.

Lemma errorsIn_withoutFormErrors (n : Nodes) : errorsIn (withoutFormErrors n) = [].
Proof.
  induction n as [|message next IH|key children IHc next IHn]; simpl; [done|done|].
  by rewrite IHc, IHn.
Qed.

Lemma withoutFormErrors_idem (n : Nodes) :
  withoutFormErrors (withoutFormErrors n) = withoutFormErrors n.
Proof.
  induction n as [|message next IH|key children IHc next IHn]; simpl; [done|done|].
  by rewrite IHc, IHn.
Qed.

Lemma childrenOf_withoutFormErrors (p : nat) (n : Nodes) :
  childrenOf p (withoutFormErrors n) = withoutFormErrors <$> childrenOf p n.
Proof.
  induction n as [|message next IH|key children IHc next IHn]; simpl; [done|done|].
  destruct (key =? p)%nat; [done|].
  rewrite IHc. destruct (childrenOf p children); simpl; [done|]. exact IHn.
Qed.

Lemma childrenOf_elementKeys (p : nat) (n : Nodes) :
  childrenOf p n = None <-> p ∉ elementKeys n.
Proof.
  induction n as [|message next IH|key children IHc next IHn]; simpl.
  - split; [intros _; apply not_elem_of_nil|done].
  - exact IH.
  - rewrite not_elem_of_cons, not_elem_of_app, <- IHc, <- IHn.
    destruct (Nat.eqb_spec key p) as [->|Hne].
    + split; [done|]. by intros [? _].
    + destruct (childrenOf p children).
      * split; [done|]. by intros (_ & ? & _).
      * split; [intros ?; split; [congruence|done]|]. by intros (_ & _ & ?).
Qed.

(** Changing the children of [p] changes what [p] holds and nothing about
    where it is found. *)
Lemma withChildren_childrenOf (p : nat) (g : Nodes -> Nodes) (n : Nodes) :
  match withChildren p g n with
  | Some n' =>
      exists children, childrenOf p n = Some children /\
                       childrenOf p n' = Some (g children)
  | None => childrenOf p n = None
  end.
Proof.
  induction n as [|message next IH|key children IHc next IHn]; simpl; [done| |].
  - destruct (withChildren p g next); simpl; done.
  - destruct (Nat.eqb_spec key p) as [->|Hne].
    + exists children. simpl. by rewrite Nat.eqb_refl.
    + destruct (withChildren p g children) as [children'|]; simpl.
      * destruct IHc as (c & -> & Hc). exists c. split; [done|].
        apply Nat.eqb_neq in Hne. by rewrite Hne, Hc.
      * rewrite IHc.
        destruct (withChildren p g next) as [next'|]; simpl; [|done].
        destruct IHn as (c & -> & Hc). exists c. split; [done|].
        apply Nat.eqb_neq in Hne. by rewrite Hne, IHc.
Qed.

Lemma childrenOf_appendNodes_new (p : nat) (children n : Nodes) :
  childrenOf p n = None ->
  childrenOf p (appendNodes n (Element p children NoNode)) = Some children.
Proof.
  induction n as [|message next IH|key c _ next IH]; simpl.
  - intros _. by rewrite Nat.eqb_refl.
  - exact IH.
  - destruct (key =? p)%nat; [done|].
    destruct (childrenOf p c); [done|]. exact IH.
Qed.

(** What the parent of a control holds after a change of its children,
    when the change acts on the texts of the error nodes as [h] does. *)
Lemma errorsAt_inParent (p : nat) (g : Nodes -> Nodes)
  (h : list string -> list string) (n : Nodes) :
  (forall children, errorsIn (g children) = h (errorsIn children)) ->
  errorsAt p (inParent p g n) = h (errorsAt p n).
Proof.
  intros Hg. unfold inParent, errorsAt.
  pose proof (withChildren_childrenOf p g n) as H.
  destruct (withChildren p g n) as [n'|].
  - destruct H as (children & -> & ->). simpl. apply Hg.
  - rewrite H. simpl. specialize (Hg NoNode). simpl in Hg.
    destruct (g NoNode) as [|message next|key c next] eqn:E.
    + rewrite H. simpl. by rewrite <- Hg.
    + rewrite childrenOf_appendNodes_new by done. simpl. exact Hg.
    + rewrite childrenOf_appendNodes_new by done. simpl. exact Hg.
Qed.

Lemma formErrors_lookup (d : Document) (p : nat) :
  formErrors d !! p
  = match errorsAt p (nodes d) with [] => None | l => Some l end.
Proof.
  unfold formErrors.
  assert (errorsAt p (nodes d) <> [] -> p ∈ elementKeys (nodes d)) as Hin.
  { intros Hne. destruct (decide (p ∈ elementKeys (nodes d))) as [|Hnot]; [done|].
    apply childrenOf_elementKeys in Hnot. unfold errorsAt in Hne.
    by rewrite Hnot in Hne. }
  induction (elementKeys (nodes d)) as [|k ks IH]; simpl.
  - rewrite lookup_empty. destruct (errorsAt p (nodes d)); [done|].
    exfalso. eapply not_elem_of_nil. by apply Hin.
  - destruct (decide (k = p)) as [->|Hne].
    + destruct (errorsAt p (nodes d)) as [|x l] eqn:E; simpl.
      * apply IH. intros ?. done.
      * apply lookup_insert_eq.
    + assert (errorsAt p (nodes d) <> [] -> p ∈ ks) as Hin'.
      { intros H. apply Hin in H. apply elem_of_cons in H as [|]; [congruence|done]. }
      destruct (errorsAt k (nodes d)) as [|x l]; simpl; [by apply IH|].
      rewrite lookup_insert_ne by done. by apply IH.
Qed.

Lemma formErrors_errorsAt (d : Document) (p : nat) :
  default [] (formErrors d !! p) = errorsAt p (nodes d).
Proof. rewrite formErrors_lookup. by destruct (errorsAt p (nodes d)). Qed.

Lemma markers_wf_errorsAt (d : Document) :
  markers_wf d <-> forall p, (length (errorsAt p (nodes d)) <= 1)%nat.
Proof.
  unfold markers_wf, map_Forall. split.
  - intros Hwf p. specialize (Hwf p (errorsAt p (nodes d))).
    rewrite formErrors_lookup in Hwf.
    destruct (errorsAt p (nodes d)) as [|x l] eqn:E; [simpl; lia|].
    rewrite Hwf by done. lia.
  - intros Hle p l. rewrite formErrors_lookup. specialize (Hle p).
    destruct (errorsAt p (nodes d)) as [|x [|y l']]; [done| |simpl in Hle; lia].
    by intros [= <-].
Qed.

Lemma childrenOf_errorsIn (p : nat) (n children : Nodes) :
  childrenOf p n = Some children -> errorsIn n = [] -> errorsIn children = [].
Proof.
  induction n as [|message next IH|key c IHc next IHn]; simpl; [done|done|].
  intros Hfound Hnone. apply app_eq_nil in Hnone as [Hc Hn].
  destruct (key =? p)%nat; [by injection Hfound as <-|].
  destruct (childrenOf p c) as [found|] eqn:E.
  - injection Hfound as <-. by apply IHc.
  - by apply IHn.
Qed.

(** A page without error nodes has well-formed markers. *)
Lemma markers_wf_clean (d : Document) : errorsIn (nodes d) = [] -> markers_wf d.
Proof.
  intros Hnone. apply markers_wf_errorsAt. intros p. unfold errorsAt.
  destruct (childrenOf p (nodes d)) as [children|] eqn:E; simpl; [|lia].
  rewrite (childrenOf_errorsIn p _ _ E Hnone). simpl. lia.
Qed.

(** ** Validation reads values and writes markers *)

Lemma clearFieldError_content (i : nat) (d : Document) :
  content (clearFieldError i d) = content d.
Proof. unfold clearFieldError. by destruct (controls d !! i). Qed.

Lemma showFieldError_content (i : nat) (message : string) (d : Document) :
  content (showFieldError i message d) = content d.
Proof. unfold showFieldError. by destruct (controls d !! i). Qed.

Lemma content_controls (d d' : Document) :
  content d = content d' -> controls d = controls d'.
Proof. unfold content. congruence. Qed.

Lemma validateField_content (i : nat) (d : Document) :
  content (snd (validateField i d)) = content d.
Proof.
  unfold validateField. destruct (controls d !! i) as [f|]; [|done].
  destruct (fieldVerdict f) as [[] msg]; simpl.
  - apply clearFieldError_content.
  - by rewrite showFieldError_content, clearFieldError_content.
Qed.

Lemma validateField_verdict (i : nat) (d : Document) :
  fst (validateField i d) = fieldPasses d i.
Proof.
  unfold validateField, fieldPasses. destruct (controls d !! i) as [f|]; [|done].
  by destruct (fieldVerdict f).
Qed.

Lemma fieldPasses_content (d d' : Document) (i : nat) :
  content d = content d' -> fieldPasses d i = fieldPasses d' i.
Proof. intros E. unfold fieldPasses. by rewrite (content_controls _ _ E). Qed.

Lemma forallb_fieldPasses_content (d d' : Document) (fields : list nat) :
  content d = content d' ->
  forallb (fieldPasses d) fields = forallb (fieldPasses d') fields.
Proof.
  intros E. induction fields as [|i fields IH]; simpl; [done|].
  by rewrite IH, (fieldPasses_content d d' i E).
Qed.

Lemma validateFields_acc (fields : list nat) (b : bool) (d : Document) :
  let r := foldl (fun '(allValid, d) i =>
                    let '(ok, d') := validateField i d in
                    (if negb ok then false else allValid, d'))
                 (b, d) fields in
  fst r = b && forallb (fieldPasses d) fields /\ content (snd r) = content d.
Proof.
  revert b d. induction fields as [|i fields IH]; intros b d; simpl.
  - by rewrite andb_true_r.
  - pose proof (validateField_verdict i d) as Hv.
    pose proof (validateField_content i d) as Hc.
    destruct (validateField i d) as [ok d']; simpl in *.
    destruct (IH (if negb ok then false else b) d') as [E1 E2].
    rewrite E1, E2, Hc. split; [|done].
    rewrite <- Hv.
    rewrite (forallb_fieldPasses_content d' d fields Hc).
    by destruct ok, b.
Qed.

Lemma truthy_empty (s : string) : JS.truthy s = false <-> s = "".
Proof. destruct s; simpl; split; intros; congruence. Qed.

(** ** What validation does to the error nodes of a parent *)

Lemma clearFieldError_errorsAt (i : nat) (f : Field) (d : Document) :
  controls d !! i = Some f ->
  errorsAt (f_parent f) (nodes (clearFieldError i d))
  = drop 1 (errorsAt (f_parent f) (nodes d)).
Proof.
  intros Hf. unfold clearFieldError. rewrite Hf. simpl.
  apply errorsAt_inParent. apply errorsIn_withoutFirstFormError.
Qed.

Lemma showFieldError_errorsAt (i : nat) (f : Field) (message : string) (d : Document) :
  controls d !! i = Some f ->
  errorsAt (f_parent f) (nodes (showFieldError i message d))
  = (drop 1 (errorsAt (f_parent f) (nodes d)) ++ [message])%list.
Proof.
  intros Hf. unfold showFieldError. rewrite Hf. simpl.
  apply (errorsAt_inParent _ _ (fun l => drop 1 l ++ [message])%list).
  intros children.
  by rewrite errorsIn_appendFormError, errorsIn_withoutFirstFormError.
Qed.

Lemma clearFieldError_errorClass (i j : nat) (f : Field) (d : Document) :
  controls d !! i = Some f ->
  (j ∈ errorClass (clearFieldError i d) <-> j <> i /\ j ∈ errorClass d).
Proof.
  intros Hf. unfold clearFieldError. rewrite Hf. simpl.
  rewrite elem_of_difference, elem_of_singleton. tauto.
Qed.

Lemma showFieldError_errorClass (i j : nat) (f : Field) (message : string)
  (d : Document) :
  controls d !! i = Some f ->
  (j ∈ errorClass (showFieldError i message d) <-> j = i \/ j ∈ errorClass d).
Proof.
  intros Hf. unfold showFieldError. rewrite Hf. simpl.
  rewrite elem_of_union, elem_of_singleton. tauto.
Qed.

(** [validateField] on the error nodes inside the parent of its control:
    one goes when the control is valid; when it is not, two go and the
    message is appended. *)
Lemma validateField_errorsAt (i : nat) (f : Field) (d : Document) :
  controls d !! i = Some f ->
  errorsAt (f_parent f) (nodes (snd (validateField i d)))
  = if fst (fieldVerdict f) then drop 1 (errorsAt (f_parent f) (nodes d))
    else (drop 2 (errorsAt (f_parent f) (nodes d)) ++ [snd (fieldVerdict f)])%list.
Proof.
  intros Hf. unfold validateField. rewrite Hf.
  destruct (fieldVerdict f) as [[] msg]; simpl.
  - by apply clearFieldError_errorsAt.
  - rewrite (showFieldError_errorsAt i f).
    + rewrite (clearFieldError_errorsAt i f) by done. by rewrite drop_drop.
    + by rewrite (content_controls _ _ (clearFieldError_content i d)).
Qed.

Lemma validateField_errorClass (i j : nat) (f : Field) (d : Document) :
  controls d !! i = Some f ->
  (j ∈ errorClass (snd (validateField i d)) <->
   (j = i /\ fst (fieldVerdict f) = false) \/ (j <> i /\ j ∈ errorClass d)).
Proof.
  intros Hf. unfold validateField. rewrite Hf.
  destruct (fieldVerdict f) as [[] msg]; simpl.
  - rewrite (clearFieldError_errorClass i j f) by done. intuition congruence.
  - rewrite (showFieldError_errorClass i j f)
      by (by rewrite (content_controls _ _ (clearFieldError_content i d))).
    rewrite (clearFieldError_errorClass i j f) by done.
    destruct (decide (j = i)); intuition congruence.
Qed.
Section Properties.

Variable D : string -> option Z.

(** ** The date rule and the verdict of a step *)

Lemma getElementById_content (id : string) (d d' : Document) :
  content d = content d' -> getElementById id d = getElementById id d'.
Proof. intros E. unfold getElementById. by rewrite (content_controls _ _ E). Qed.

Lemma valueAt_content (i : nat) (d d' : Document) :
  content d = content d' -> valueAt i d = valueAt i d'.
Proof. intros E. unfold valueAt. by rewrite (content_controls _ _ E). Qed.

Lemma queryFormStep_content (n : Z) (d d' : Document) :
  content d = content d' -> queryFormStep n d = queryFormStep n d'.
Proof.
  intros E. unfold queryFormStep.
  replace (formSteps d) with (formSteps d'); [done|].
  unfold content in E. congruence.
Qed.

Lemma validateDates_content (d : Document) :
  content (snd (validateDates D d)) = content d.
Proof.
  unfold validateDates.
  destruct (getElementById "startDate" d), (getElementById "endDate" d); try done.
  destruct (JS.truthy _ && JS.truthy _); [|done].
  destruct (Date_lt _ _ _); simpl.
  - apply showFieldError_content.
  - apply clearFieldError_content.
Qed.

Lemma validateDates_verdict_content (d d' : Document) :
  content d = content d' -> fst (validateDates D d) = fst (validateDates D d').
Proof.
  intros E. unfold validateDates.
  rewrite !(getElementById_content _ d d' E).
  destruct (getElementById "startDate" d') as [s|],
           (getElementById "endDate" d') as [e|]; try done.
  rewrite !(valueAt_content _ d d' E).
  destruct (JS.truthy _ && JS.truthy _); [|done].
  by destruct (Date_lt _ _ _).
Qed.
Lemma validateCurrentStep_content (n : Z) (d : Document) :
  content (snd (validateCurrentStep D n d)) = content d.
Proof.
  unfold validateCurrentStep, validateFields.
  destruct (queryFormStep n d) as [st|]; [|done].
  destruct (validateFields_acc (step_fields st) true d) as [_ Hc].
  destruct (foldl _ _ _) as [allValid d1]; simpl in *.
  destruct (n =? 2); [|done].
  pose proof (validateDates_content d1) as Hd.
  destruct (validateDates D d1) as [r d2]; simpl in *. congruence.
Qed.

Lemma validateCurrentStep_verdict (n : Z) (d : Document) (st : FormStep) :
  queryFormStep n d = Some st ->
  fst (validateCurrentStep D n d)
  = forallb (fieldPasses d) (step_fields st) &&
    (if n =? 2 then bool_decide (fst (validateDates D d) = Some true) else true).
Proof.
  intros Hst. unfold validateCurrentStep, validateFields. rewrite Hst.
  destruct (validateFields_acc (step_fields st) true d) as [Hv Hc].
  destruct (foldl _ _ _) as [allValid d1]; simpl in *. subst allValid.
  destruct (n =? 2); simpl; [|by rewrite andb_true_r].
  rewrite <- (validateDates_verdict_content d1 d Hc).
  destruct (validateDates D d1) as [[[]|] d2]; simpl.
  - by rewrite andb_true_r.
  - by rewrite andb_false_r.
  - by rewrite andb_false_r.
Qed.

Lemma validateCurrentStep_verdict_content (n : Z) (d d' : Document) :
  content d = content d' ->
  fst (validateCurrentStep D n d) = fst (validateCurrentStep D n d').
Proof.
  intros E.
  destruct (queryFormStep n d') as [st|] eqn:Hst.
  - rewrite (validateCurrentStep_verdict n d' st Hst).
    rewrite (validateCurrentStep_verdict n d st)
      by (by rewrite (queryFormStep_content n d d' E)).
    by rewrite (forallb_fieldPasses_content d d' _ E),
               (validateDates_verdict_content d d' E).
  - unfold validateCurrentStep.
    by rewrite (queryFormStep_content n d d' E), Hst.
Qed.

Lemma getElementById_Some (id : string) (d : Document) (i : nat) :
  getElementById id d = Some i ->
  exists f, controls d !! i = Some f /\ f_id f = id.
Proof.
  unfold getElementById. intros H.
  destruct (list_find _ _) as [[j f]|] eqn:E; simpl in H; [|done].
  injection H as <-. apply list_find_Some in E as (? & ? & _). eauto.
Qed.

(** C6. [validateDates] returns [false] exactly when both date controls
    hold a value and the end date is before the start date, and it then
    marks the end-date control with "End date must be after start date".
    When one of the two values is empty it returns [true] and touches
    nothing; dates with the same time value pass; without one of the two
    controls nothing is reported either; and whenever the result is not
    [false] the page is left as it was or the end-date control is cleared
    of its marker. *)
Theorem validateDates_rule (d : Document) :
  (fst (validateDates D d) = Some false <->
   exists s e,
     getElementById "startDate" d = Some s /\
     getElementById "endDate" d = Some e /\
     valueAt s d <> "" /\ valueAt e d <> "" /\
     Date_lt D (valueAt e d) (valueAt s d) = true) /\
  (fst (validateDates D d) = Some false ->
   exists e f,
     getElementById "endDate" d = Some e /\ controls d !! e = Some f /\
     e ∈ errorClass (snd (validateDates D d)) /\
     last (default [] (formErrors (snd (validateDates D d)) !! f_parent f))
     = Some "End date must be after start date") /\
  (forall s e,
     getElementById "startDate" d = Some s ->
     getElementById "endDate" d = Some e ->
     (valueAt s d = "" \/ valueAt e d = "" ->
      validateDates D d = (Some true, d)) /\
     (D (valueAt e d) = D (valueAt s d) ->
      fst (validateDates D d) = Some true)) /\
  (getElementById "startDate" d = None \/ getElementById "endDate" d = None ->
   validateDates D d = (None, d)) /\
  (fst (validateDates D d) <> Some false ->
   snd (validateDates D d) = d \/
   exists e, getElementById "endDate" d = Some e /\
             snd (validateDates D d) = clearFieldError e d).
Proof.
  unfold validateDates.
  destruct (getElementById "startDate" d) as [s|] eqn:Es;
    [destruct (getElementById "endDate" d) as [e|] eqn:Ee|].
  - pose proof (truthy_nonempty (valueAt s d)) as Hs.
    pose proof (truthy_empty (valueAt s d)) as Hs'.
    pose proof (truthy_nonempty (valueAt e d)) as He.
    pose proof (truthy_empty (valueAt e d)) as He'.
    destruct (getElementById_Some _ _ _ Ee) as (f & Hf & _).
    split; [split|split; [|split; [|split]]].
    + destruct (JS.truthy (valueAt s d)), (JS.truthy (valueAt e d)); simpl;
        try done.
      destruct (Date_lt D _ _) eqn:Elt; [|done].
      intros _. exists s, e. repeat split; try done; [by apply Hs|by apply He].
    + intros (s' & e' & [= <-] & [= <-] & Hvs & Hve & Hlt).
      apply Hs in Hvs. apply He in Hve. by rewrite Hvs, Hve, Hlt.
    + destruct (JS.truthy (valueAt s d) && JS.truthy (valueAt e d)); [|done].
      destruct (Date_lt D _ _); [|done]. intros _.
      exists e, f. split; [done|]. split; [done|]. split.
      * simpl. apply (showFieldError_errorClass e e f); [done|by left].
      * rewrite formErrors_errorsAt. simpl.
        rewrite (showFieldError_errorsAt e f) by done. apply last_snoc.
    + intros s' e' [= <-] [= <-]. split.
      * intros [Hv|Hv].
        -- apply Hs' in Hv. by rewrite Hv.
        -- apply He' in Hv. rewrite Hv. by rewrite andb_false_r.
      * intros Heq.
        destruct (JS.truthy (valueAt s d) && JS.truthy (valueAt e d)); [|done].
        unfold Date_lt. rewrite Heq.
        destruct (D (valueAt s d)); [|done]. by rewrite Z.ltb_irrefl.
    + by intros [|].
    + destruct (JS.truthy (valueAt s d) && JS.truthy (valueAt e d)); [|by left].
      destruct (Date_lt D _ _); simpl; [done|]. intros _. right. by exists e.
  - split; [split|split; [|split; [|split]]]; try done.
    + by intros (? & ? & _ & ? & _).
    + by left.
  - split; [split|split; [|split; [|split]]]; try done.
    + by intros (? & ? & ? & _).
    + by left.
Qed.


(** ** Navigation *)

(** [nextStep] moves from a step [n] within [1, totalSteps] to [n + 1]
    exactly when [validateCurrentStep] succeeds and [n] is below
    [totalSteps]; otherwise the step stays, and [totalSteps] never changes. *)
Lemma nextStep_moves (w : World) :
  let n := currentStep (manager w) in
  let valid := fst (validateCurrentStep D n (page w)) in
  (currentStep (manager (nextStep D w)) = n + 1 <->
   valid = true /\ n < totalSteps (manager w)) /\
  (valid = false \/ totalSteps (manager w) <= n ->
   currentStep (manager (nextStep D w)) = n) /\
  totalSteps (manager (nextStep D w)) = totalSteps (manager w).
Proof.
  intros n valid. subst n valid. unfold nextStep.
  destruct (validateCurrentStep D _ (page w)) as [[] d]; simpl.
  - destruct (Z.ltb_spec (currentStep (manager w)) (totalSteps (manager w)));
      simpl.
    + split; [split; [done|lia]|]. split; [|done]. intros [|]; [done|lia].
    + split; [split; [lia|intros [_ ?]; lia]|]. done.
  - split; [split; [lia|by intros [? _]]|]. done.
Qed.

(** What an event can do to the step: leave it, reset it to 1, or move
    it by one inside the range; [totalSteps] never changes. *)
Lemma resetForm_steps (w : World) :
  totalSteps (manager (resetForm w)) = totalSteps (manager w) /\
  (currentStep (manager (resetForm w)) = currentStep (manager w) \/
   currentStep (manager (resetForm w)) = 1).
Proof. unfold resetForm. destruct (addActivityForm _); simpl; auto. Qed.

Lemma loadActivities_steps (w : World) :
  totalSteps (manager (loadActivities w)) = totalSteps (manager w) /\
  currentStep (manager (loadActivities w)) = currentStep (manager w).
Proof. unfold loadActivities. by destruct (isLoading _). Qed.

Lemma handleActivitySubmit_manager (w : World) :
  manager (handleActivitySubmit D w) = manager w.
Proof.
  unfold handleActivitySubmit.
  destruct (validateCurrentStep D _ _) as [[] d]; simpl; [|done].
  by destruct (collectFormData d).
Qed.

Lemma resume_steps (k : Continuation) (r : Response) (w : World) :
  totalSteps (manager (resume k r w)) = totalSteps (manager w) /\
  (currentStep (manager (resume k r w)) = currentStep (manager w) \/
   currentStep (manager (resume k r w)) = 1).
Proof.
  destruct k, r; simpl; auto.
Qed.

Lemma step_steps (w : World) (e : Event) :
  totalSteps (manager (step D w e)) = totalSteps (manager w) /\
  (currentStep (manager (step D w e)) = currentStep (manager w) \/
   currentStep (manager (step D w e)) = 1 \/
   (currentStep (manager (step D w e)) = currentStep (manager w) + 1 /\
    currentStep (manager w) < totalSteps (manager w)) \/
   (currentStep (manager (step D w e)) = currentStep (manager w) - 1 /\
    1 < currentStep (manager w))).
Proof.
  destruct e; simpl; auto.
  - rewrite handleActivitySubmit_manager. auto.
  - unfold nextStep.
    destruct (validateCurrentStep D _ _) as [[] d]; simpl; auto.
    destruct (Z.ltb_spec (currentStep (manager w)) (totalSteps (manager w)));
      simpl; (split; [done|lia]).
  - unfold previousStep.
    destruct (Z.ltb_spec 1 (currentStep (manager w))); simpl;
      (split; [done|lia]).
  - by destruct (fileListeners (page w)); simpl; auto.
  - destruct (documents (page w)); simpl; auto.
  - destruct (removeFile index (page w)); simpl; auto.
  - unfold filterActivities.
    destruct (loadActivities_steps
                (set_manager (set_query filter (searchQuery (manager w))
                                        (manager w)) w)) as [-> ->]. auto.
  - unfold handleSearch.
    destruct (loadActivities_steps
                (set_manager (set_query (currentFilter (manager w)) (Some q)
                                        (manager w)) w)) as [-> ->]. auto.
  - unfold generatePortfolio. destruct (isGenerating w); simpl; auto.
  - unfold settle. destruct (awaiting w !! request) as [k|]; [|auto].
    destruct (resume_steps k r
                (set_awaiting (delete request (awaiting w)) w))
      as [-> [->| ->]]; simpl; auto.
Qed.

(** C4. [1 <= currentStep <= totalSteps] holds after construction, where
    the step is 1 of 3; [nextStep], [previousStep] and [resetForm] keep
    it; and so it holds after any sequence of events on the page. *)
Theorem currentStep_in_range :
  (forall d, stepInRange (newWorld d) /\
             currentStep (manager (newWorld d)) = 1 /\
             totalSteps (manager (newWorld d)) = 3) /\
  (forall w, stepInRange w ->
             stepInRange (nextStep D w) /\ stepInRange (previousStep w) /\
             stepInRange (resetForm w)) /\
  (forall d events, stepInRange (run D (newWorld d) events) /\
                    totalSteps (manager (run D (newWorld d) events)) = 3).
Proof.
  split; [|split].
  - intros d. unfold stepInRange. simpl. lia.
  - intros w Hw. unfold stepInRange in *.
    pose proof (step_steps w ClickNext) as Hn.
    pose proof (step_steps w ClickPrevious) as Hp.
    pose proof (resetForm_steps w) as Hr. simpl in Hn, Hp.
    lia.
  - intros d events.
    assert (forall w, stepInRange w /\ totalSteps (manager w) = 3 ->
                      stepInRange (run D w events) /\
                      totalSteps (manager (run D w events)) = 3) as Hrun.
    { induction events as [|e events IH]; intros w Hw; simpl; [done|].
      apply IH. unfold stepInRange in *.
      pose proof (step_steps w e). lia. }
    apply Hrun. unfold stepInRange. simpl. lia.
Qed.

(** ** Submission *)

Lemma collectFormData_content (d d' : Document) :
  content d = content d' -> collectFormData d = collectFormData d'.
Proof.
  intros E. unfold collectFormData, getElementById, valueAt.
  unfold content in E. injection E as _ Ec _ Ed _. by rewrite Ec, Ed.
Qed.

Lemma collectFormData_documents (d : Document) (formData : list FormEntry) :
  collectFormData d = Some formData -> exists files, documents d = Some files.
Proof.
  unfold collectFormData. intros H.
  destruct (mapM _ payloadFields); simpl in H; [|done].
  destruct (documents d) as [files|]; [eauto|done].
Qed.

(** [handleActivitySubmit] from the [await] on never reaches [resetForm]:
    whether the request succeeded or failed, the first thing it does is
    call the notifier, which throws; on success the [catch] calls it again.
    The overlay comes down, the error leaves the method, and the wizard is
    as it was. *)
Lemma handleActivitySubmit_resume_effect (r : Response) (w : World) :
  formState (handleActivitySubmit_resume r w) = formState w /\
  page (handleActivitySubmit_resume r w) = page w /\
  manager (handleActivitySubmit_resume r w) = manager w /\
  toasts (handleActivitySubmit_resume r w) = toasts w /\
  loadingOverlay (handleActivitySubmit_resume r w) = false /\
  uncaught (handleActivitySubmit_resume r w)
  = (uncaught w
     ++ [TypeError "NotificationManager.showNotification is not a function"])%list.
Proof. by destruct r. Qed.

(** A second submission while the first is outstanding: validation sees
    the same values and passes again, the payload is assembled again, and
    a second request goes out. Nothing in [handleActivitySubmit] looks at
    what is in flight. *)
Lemma handleActivitySubmit_twice (w : World) (formData : list FormEntry) :
  fst (validateCurrentStep D (currentStep (manager w)) (page w)) = true ->
  collectFormData (page w) = Some formData ->
  requests (handleActivitySubmit D (handleActivitySubmit D w))
  = (requests w ++ [PostActivities formData; PostActivities formData])%list.
Proof.
  intros Hvalid Hdata.
  assert (forall w', fst (validateCurrentStep D (currentStep (manager w')) (page w')) = true ->
                     collectFormData (page w') = Some formData ->
                     requests (handleActivitySubmit D w')
                     = (requests w' ++ [PostActivities formData])%list /\
                     manager (handleActivitySubmit D w') = manager w' /\
                     content (page (handleActivitySubmit D w')) = content (page w'))
    as Hone.
  { intros w' Hv Hd.
    pose proof (validateCurrentStep_content (currentStep (manager w')) (page w')) as Hc.
    unfold handleActivitySubmit.
    destruct (validateCurrentStep D _ (page w')) as [ok d]. simpl in Hv, Hc.
    subst ok. simpl. by rewrite (collectFormData_content d (page w') Hc), Hd. }
  destruct (Hone w Hvalid Hdata) as (Hr & Hm & Hc).
  destruct (Hone (handleActivitySubmit D w)) as (Hr' & _ & _).
  - rewrite Hm. by rewrite (validateCurrentStep_verdict_content _ _ (page w) Hc).
  - by rewrite (collectFormData_content _ (page w) Hc).
  - rewrite Hr', Hr. by rewrite <- app_assoc.
Qed.

(** ** The in-progress flags *)

Lemma guarded_net (w w' : World) : net w = net w' -> guarded w -> guarded w'.
Proof.
  unfold net, guarded, inFlight, singleFlight.
  intros [= E1 E2 E3 E4]. by rewrite E1, E2, E3, E4.
Qed.

Lemma guarded_new (d : Document) : guarded (newWorld d).
Proof.
  unfold guarded, inFlight, singleFlight. simpl.
  split; [|split; [|split; [|split]]].
  - intros rq [k Hk]. by rewrite lookup_empty in Hk.
  - split; [done|]. intros [rq Hrq]. by rewrite lookup_empty in Hrq.
  - intros rq rq' Hrq. by rewrite lookup_empty in Hrq.
  - split; [done|]. intros [rq Hrq]. by rewrite lookup_empty in Hrq.
  - intros rq rq' Hrq. by rewrite lookup_empty in Hrq.
Qed.

Lemma guarded_fresh (w : World) :
  guarded w -> awaiting w !! length (requests w) = None.
Proof.
  intros [Hb _]. destruct (awaiting w !! length (requests w)) eqn:E; [|done].
  specialize (Hb (length (requests w)) (mk_is_Some _ _ E)). lia.
Qed.

(** A request goes out and its caller is suspended on it. A
    [loadActivities] does so only with its flag down, and raises it. *)
Lemma guarded_issue (k : Continuation) (rq : Request) (w w' : World) :
  guarded w ->
  requests w' = (requests w ++ [rq])%list ->
  awaiting w' = <[length (requests w) := k]> (awaiting w) ->
  match k with
  | AwaitSubmit => isLoading (manager w') = isLoading (manager w) /\
                   isGenerating w' = isGenerating w
  | AwaitLoad => isLoading (manager w) = false /\
                 isLoading (manager w') = true /\
                 isGenerating w' = isGenerating w
  | AwaitGenerate => isGenerating w = false /\
                     isGenerating w' = true /\
                     isLoading (manager w') = isLoading (manager w)
  end ->
  guarded w'.
Proof.
  intros Hg Hr Ha Hk. pose proof (guarded_fresh w Hg) as Hfresh.
  destruct Hg as (Hb & Hl & Hsl & Hgen & Hsg).
  unfold guarded, inFlight, singleFlight in *. rewrite Hr, Ha.
  assert (forall k0 n, <[length (requests w) := k]> (awaiting w) !! n = Some k0 ->
                       (n = length (requests w) /\ k0 = k) \/
                       (n <> length (requests w) /\ awaiting w !! n = Some k0))
    as Hlook.
  { intros k0 n. rewrite lookup_insert. case_decide; [|by right].
    intros [= <-]. by left. }
  split; [|split; [|split; [|split]]].
  - intros n [k0 Hn]. rewrite length_app. simpl.
    destruct (Hlook _ _ Hn) as [[-> _]|[_ Hn']]; [lia|].
    specialize (Hb n (mk_is_Some _ _ Hn')). lia.
  - destruct k.
    + destruct Hk as [-> _]. rewrite Hl. split.
      * intros [n Hn]. exists n. rewrite lookup_insert_ne; [done|].
        intros <-. congruence.
      * intros [n Hn]. destruct (Hlook _ _ Hn) as [[_ ?]|[_ ?]]; [done|eauto].
    + destruct Hk as (_ & -> & _). split; [|done]. intros _.
      exists (length (requests w)). apply lookup_insert_eq.
    + destruct Hk as (_ & _ & ->). rewrite Hl. split.
      * intros [n Hn]. exists n. rewrite lookup_insert_ne; [done|].
        intros <-. congruence.
      * intros [n Hn]. destruct (Hlook _ _ Hn) as [[_ ?]|[_ ?]]; [done|eauto].
  - intros n n' Hn Hn'.
    destruct (Hlook _ _ Hn) as [[-> E]|[_ Hn1]],
             (Hlook _ _ Hn') as [[-> E']|[_ Hn1']]; try done.
    + subst k. destruct Hk as (Hoff & _). exfalso.
      assert (isLoading (manager w) = true) by (apply Hl; eauto). congruence.
    + subst k. destruct Hk as (Hoff & _). exfalso.
      assert (isLoading (manager w) = true) by (apply Hl; eauto). congruence.
    + by apply Hsl.
  - destruct k.
    + destruct Hk as [_ ->]. rewrite Hgen. split.
      * intros [n Hn]. exists n. rewrite lookup_insert_ne; [done|].
        intros <-. congruence.
      * intros [n Hn]. destruct (Hlook _ _ Hn) as [[_ ?]|[_ ?]]; [done|eauto].
    + destruct Hk as (_ & _ & ->). rewrite Hgen. split.
      * intros [n Hn]. exists n. rewrite lookup_insert_ne; [done|].
        intros <-. congruence.
      * intros [n Hn]. destruct (Hlook _ _ Hn) as [[_ ?]|[_ ?]]; [done|eauto].
    + destruct Hk as (_ & -> & _). split; [|done]. intros _.
      exists (length (requests w)). apply lookup_insert_eq.
  - intros n n' Hn Hn'.
    destruct (Hlook _ _ Hn) as [[-> E]|[_ Hn1]],
             (Hlook _ _ Hn') as [[-> E']|[_ Hn1']]; try done.
    + subst k. destruct Hk as (Hoff & _). exfalso.
      assert (isGenerating w = true) by (apply Hgen; eauto). congruence.
    + subst k. destruct Hk as (Hoff & _). exfalso.
      assert (isGenerating w = true) by (apply Hgen; eauto). congruence.
    + by apply Hsg.
Qed.

(** A request settles and the suspended method runs to its end. A
    [loadActivities] or [generatePortfolio] lowers its flag. *)
Lemma guarded_settle (k : Continuation) (rq : nat) (w w' : World) :
  guarded w ->
  awaiting w !! rq = Some k ->
  requests w' = requests w ->
  awaiting w' = delete rq (awaiting w) ->
  match k with
  | AwaitSubmit => isLoading (manager w') = isLoading (manager w) /\
                   isGenerating w' = isGenerating w
  | AwaitLoad => isLoading (manager w') = false /\
                 isGenerating w' = isGenerating w
  | AwaitGenerate => isGenerating w' = false /\
                     isLoading (manager w') = isLoading (manager w)
  end ->
  guarded w'.
Proof.
  intros (Hb & Hl & Hsl & Hgen & Hsg) Hrq Hr Ha Hk.
  unfold guarded, inFlight, singleFlight in *. rewrite Hr, Ha.
  assert (forall k0 n, delete rq (awaiting w) !! n = Some k0 <->
                       n <> rq /\ awaiting w !! n = Some k0) as Hlook.
  { intros k0 n. rewrite lookup_delete_Some.
    split; intros [? ?]; (split; [congruence|done]). }
  split; [|split; [|split; [|split]]].
  - intros n [k0 Hn]. apply Hlook in Hn as [_ Hn]. apply Hb. eauto.
  - destruct k.
    + destruct Hk as [-> _]. rewrite Hl. split.
      * intros [n Hn]. exists n. apply Hlook. split; [congruence|done].
      * intros [n Hn]. apply Hlook in Hn as [_ Hn]. eauto.
    + destruct Hk as [-> _]. split; [done|].
      intros [n Hn]. apply Hlook in Hn as [Hne Hn].
      destruct Hne. by apply Hsl.
    + destruct Hk as [_ ->]. rewrite Hl. split.
      * intros [n Hn]. exists n. apply Hlook. split; [congruence|done].
      * intros [n Hn]. apply Hlook in Hn as [_ Hn]. eauto.
  - intros n n' Hn Hn'. apply Hlook in Hn as [_ Hn]. apply Hlook in Hn' as [_ Hn'].
    by apply Hsl.
  - destruct k.
    + destruct Hk as [_ ->]. rewrite Hgen. split.
      * intros [n Hn]. exists n. apply Hlook. split; [congruence|done].
      * intros [n Hn]. apply Hlook in Hn as [_ Hn]. eauto.
    + destruct Hk as [_ ->]. rewrite Hgen. split.
      * intros [n Hn]. exists n. apply Hlook. split; [congruence|done].
      * intros [n Hn]. apply Hlook in Hn as [_ Hn]. eauto.
    + destruct Hk as [-> _]. split; [done|].
      intros [n Hn]. apply Hlook in Hn as [Hne Hn].
      destruct Hne. by apply Hsg.
  - intros n n' Hn Hn'. apply Hlook in Hn as [_ Hn]. apply Hlook in Hn' as [_ Hn'].
    by apply Hsg.
Qed.

Lemma resetForm_net (w : World) : net (resetForm w) = net w.
Proof. unfold resetForm. by destruct (addActivityForm _). Qed.

Lemma loadActivities_keeps_guarded (w : World) :
  guarded w -> guarded (loadActivities w).
Proof.
  intros Hg. unfold loadActivities.
  destruct (isLoading (manager w)) eqn:El; [done|].
  eapply (guarded_issue AwaitLoad); [exact Hg|reflexivity|reflexivity|].
  simpl. by rewrite El.
Qed.

Lemma resume_effect (k : Continuation) (r : Response) (w : World) :
  requests (resume k r w) = requests w /\
  awaiting (resume k r w) = awaiting w /\
  match k with
  | AwaitSubmit => isLoading (manager (resume k r w)) = isLoading (manager w) /\
                   isGenerating (resume k r w) = isGenerating w
  | AwaitLoad => isLoading (manager (resume k r w)) = false /\
                 isGenerating (resume k r w) = isGenerating w
  | AwaitGenerate => isGenerating (resume k r w) = false /\
                     isLoading (manager (resume k r w)) = isLoading (manager w)
  end.
Proof.
  destruct k, r; simpl; done.
Qed.

Lemma step_guarded (w : World) (e : Event) : guarded w -> guarded (step D w e).
Proof.
  intros Hg. destruct e; simpl.
  - unfold handleActivitySubmit.
    destruct (validateCurrentStep D _ _) as [[] d]; simpl;
      [|by apply (guarded_net w)].
    destruct (collectFormData d); [|by apply (guarded_net w)].
    by eapply (guarded_issue AwaitSubmit); [exact Hg|reflexivity|reflexivity|].
  - apply (guarded_net w); [|done]. unfold nextStep.
    destruct (validateCurrentStep D _ _) as [[] d]; simpl; [|done].
    by destruct (_ <? _).
  - apply (guarded_net w); [|done]. unfold previousStep. by destruct (_ <? _).
  - by apply (guarded_net w).
  - by apply (guarded_net w).
  - by apply (guarded_net w).
  - apply (guarded_net w); [|done]. by destruct (fileListeners (page w)).
  - apply (guarded_net w); [|done]. by destruct (documents (page w)).
  - apply (guarded_net w); [|done]. by destruct (removeFile index (page w)).
  - apply loadActivities_keeps_guarded. by apply (guarded_net w).
  - apply loadActivities_keeps_guarded. by apply (guarded_net w).
  - apply (guarded_net w); [|done]. unfold generatePortfolio, net.
    destruct (isGenerating w) eqn:Eg; simpl; by rewrite ?Eg.
  - unfold settle. destruct (awaiting w !! request) as [k|] eqn:Ek; [|done].
    destruct (resume_effect k r (set_awaiting (delete request (awaiting w)) w))
      as (Hr & Ha & Hk).
    by eapply (guarded_settle k request w).
Qed.

Lemma run_guarded (w : World) (events : list Event) :
  guarded w -> guarded (run D w events).
Proof.
  revert w. induction events as [|e events IH]; intros w Hg; simpl; [done|].
  apply IH. by apply step_guarded.
Qed.

(** C10. A call of [loadActivities] with [isLoading] set returns at once:
    the world, and with it the list of requests, is unchanged. With the
    flag down the call issues one request and raises the flag. When the
    request settles, with a body or with an error, the flag is lowered.
    On a page driven by events from its construction the flag is set
    exactly while a [loadActivities] is suspended, and at most one is; so
    once its request has settled none is in flight and the next call
    issues a request again. *)
Theorem loadActivities_guard :
  (forall w, isLoading (manager w) = true -> loadActivities w = w) /\
  (forall w, isLoading (manager w) = false ->
     exists rq, isGetActivities rq = true /\
                requests (loadActivities w) = (requests w ++ [rq])%list /\
                awaiting (loadActivities w) !! length (requests w) = Some AwaitLoad /\
                isLoading (manager (loadActivities w)) = true) /\
  (forall w r, isLoading (manager (loadActivities_resume r w)) = false) /\
  (forall d events,
     let w := run D (newWorld d) events in
     (isLoading (manager w) = true <-> inFlight AwaitLoad w) /\
     singleFlight AwaitLoad w /\
     (forall rq r,
        awaiting w !! rq = Some AwaitLoad ->
        let w' := settle rq r w in
        isLoading (manager w') = false /\ ~ inFlight AwaitLoad w' /\
        countRequests isGetActivities (loadActivities w')
        = S (countRequests isGetActivities w'))).
Proof.
  split; [|split; [|split]].
  - intros w Hl. unfold loadActivities. by rewrite Hl.
  - intros w Hl. unfold loadActivities. rewrite Hl.
    eexists. split; [|split; [reflexivity|split; [apply lookup_insert_eq|done]]].
    done.
  - intros w r. by destruct r.
  - intros d events w.
    pose proof (run_guarded (newWorld d) events (guarded_new d)) as Hg.
    fold w in Hg.
    destruct Hg as (Hb & Hl & Hsl & Hrest).
    split; [done|]. split; [done|].
    intros rq r Hrq w'.
    pose proof (step_guarded w (Settle rq r) (conj Hb (conj Hl (conj Hsl Hrest))))
      as (_ & Hl' & _).
    simpl in Hl'. fold w' in Hl'.
    assert (isLoading (manager w') = false) as Hoff.
    { subst w'. unfold settle. rewrite Hrq. by destruct r. }
    split; [done|]. split.
    + intros Hin. apply Hl' in Hin. congruence.
    + unfold loadActivities. rewrite Hoff.
      unfold countRequests. simpl.
      by rewrite filter_app, length_app, Nat.add_1_r.
Qed.

End Properties.

(** * The properties on a concrete page *)


Lemma currentStep_in_range_witness :
  stepInRange (nextStep isoDate (newWorld (wizardPage filledValues []))) /\
  stepInRange (run isoDate (newWorld (wizardPage filledValues []))
                 [ClickNext; ClickNext; ClickNext; ClickPrevious; Submit]).
Proof.
  destruct (currentStep_in_range isoDate) as (_ & Hops & Hrun).
  split.
  - apply Hops. unfold stepInRange. simpl. lia.
  - apply Hrun.
Defined.

Lemma validateDates_rule_witness :
  fst (validateDates isoDate (wizardPage reversedDates [])) = Some false /\
  validateDates isoDate (wizardPage shortTitle [])
  = (Some true, wizardPage shortTitle []) /\
  fst (validateDates isoDate (wizardPage filledValues [])) = Some true.
Proof.
  destruct (validateDates_rule isoDate (wizardPage reversedDates []))
    as ([_ Hfalse] & _).
  destruct (validateDates_rule isoDate (wizardPage shortTitle []))
    as (_ & _ & Hempty & _).
  split; [|split].
  - apply Hfalse. exists 3%nat, 4%nat. repeat split; try reflexivity; discriminate.
  - apply (Hempty 3%nat 4%nat); try reflexivity. left. reflexivity.
  - reflexivity.
Defined.

Lemma loadActivities_guard_witness :
  loadActivities (loadActivities (newWorld (wizardPage filledValues [])))
  = loadActivities (newWorld (wizardPage filledValues [])).
Proof.
  destruct (loadActivities_guard isoDate) as (H & _).
  apply H. reflexivity.
Defined.

(** C1 fails on the code. [handleActivitySubmit] has no in-progress flag:
    with the wizard on its last step and every control valid, two [submit]
    events before the first request settles give two [POST /activities]
    with the same body, both outstanding. The sibling [loadActivities] does
    have the guard: two searches in a row give one [GET /activities]. (Two
    clicks on the generate button give no request at all: see
    [generatePortfolio].) *)
Theorem double_submit_posts_twice :
  let w := run isoDate atLastStep [Submit; Submit] in
  countRequests isPostActivities w = 2%nat /\
  awaiting w !! 0%nat = Some AwaitSubmit /\
  awaiting w !! 1%nat = Some AwaitSubmit /\
  requests w !! 0%nat = requests w !! 1%nat /\
  countRequests isGetActivities
    (run isoDate atLastStep [Search "hack"; Search "hackathon"]) = 1%nat /\
  countRequests isPostPortfolioGenerate
    (run isoDate atLastStep [ClickGenerate; ClickGenerate]) = 0%nat.
Proof. repeat split; reflexivity. Qed.

(** C2 fails on the code. After a successful [POST /activities] the
    handler calls the notifier before it resets, the call throws, and the
    [catch] does nothing but call the notifier again: [resetForm] is never
    reached. With the wizard on its last step, every control valid and one
    file attached, the request goes out, and when it succeeds the wizard
    is still on step 3 with every value and the file in place, not in its
    initial state. A failed request leaves the wizard untouched as the
    specification says; its error message is not shown, the call of the
    notifier throwing there too. *)
Theorem submit_success_does_not_reset :
  let w1 := handleActivitySubmit isoDate atLastStep in
  let succeeded := settle 0 (Resolved []) w1 in
  let failed := settle 0 (Rejected "Server error") w1 in
  requests w1 = [PostActivities (default [] (collectFormData (page atLastStep)))] /\
  awaiting w1 !! 0%nat = Some AwaitSubmit /\
  formState succeeded = formState atLastStep /\
  fs_currentStep (formState succeeded) = 3 /\
  fs_fields (formState succeeded) = filledValues /\
  fs_selectedFiles (formState succeeded) = Some [certificate] /\
  formState succeeded <> mkFormState 1 3 (replicate 11 "") ∅ ∅ (Some []) (Some []) /\
  uncaught succeeded
  = [TypeError "NotificationManager.showNotification is not a function"] /\
  awaiting succeeded = ∅ /\
  formState failed = formState atLastStep /\
  (forall r w, formState (handleActivitySubmit_resume r w) = formState w).
Proof.
  repeat split; try reflexivity.
  - intros H. apply (f_equal fs_currentStep) in H. vm_compute in H. discriminate.
  - intros r w. by destruct r.
Qed.

(** C3 fails on the code for the duration control, by the defect of C5. On
    step 2 of the wizard with every control filled in and the dates in
    order, the duration ["-.5"] fails the rule "numeric and at least 1" of
    the table, yet [validateCurrentStep] succeeds and [nextStep] moves to
    step 3; the duration ["0b11"], the number 3, passes every rule of the
    table, yet validation fails, since [parseInt] reads it as 0, and the
    wizard stays on step 2. *)
Theorem nextStep_ignores_duration_rule :
  let below := onStepTwoWith "-.5" in
  let binary := onStepTwoWith "0b11" in
  currentStep (manager below) = 2 /\ totalSteps (manager below) = 3 /\
  map ruleTable (controls (page below))
  = [None; None; None; None; None; Some "Duration must be a positive number";
     None; None; None; None; None] /\
  fst (validateCurrentStep isoDate 2 (page below)) = true /\
  currentStep (manager (nextStep isoDate below)) = 3 /\
  currentStep (manager binary) = 2 /\
  JS.Number "0b11" = JS.Finite 3 0 /\ JS.parseInt "0b11" = Some 0 /\
  map ruleTable (controls (page binary)) = replicate 11 None /\
  fst (validateDates isoDate (page binary)) = Some true /\
  fst (validateCurrentStep isoDate 2 (page binary)) = false /\
  currentStep (manager (nextStep isoDate binary)) = 2.
Proof. repeat split; reflexivity. Qed.

(** * Further properties of the controller *)

Section MoreProperties.

Variable D : string -> option Z.

(** ** Payload assembly *)

(** X2. When [collectFormData] succeeds the payload is the eleven text
    parts under their fixed names, in order, each carrying the value of its
    control as it stands (not trimmed), followed by one part named
    [documents] per selected file, in the order of the file list. It fails
    exactly when one of the eleven controls or the file input is missing. *)
Theorem collectFormData_shape (d : Document) :
  (forall formData,
     collectFormData d = Some formData ->
     exists files,
       documents d = Some files /\
       map partName formData
       = (map fst payloadFields ++ replicate (length files) "documents")%list /\
       (forall k name id,
          payloadFields !! k = Some (name, id) ->
          exists i f, getElementById id d = Some i /\
                      controls d !! i = Some f /\
                      formData !! k = Some (TextPart name (f_value f))) /\
       (forall j file,
          files !! j = Some file ->
          formData !! (length payloadFields + j)%nat = Some (FilePart "documents" file))) /\
  (collectFormData d = None <->
   (exists name id, (name, id) ∈ payloadFields /\ getElementById id d = None) \/
   documents d = None).
Proof.
  unfold collectFormData. remember (length payloadFields) as n eqn:Hn.
  destruct (mapM _ payloadFields) as [texts|] eqn:Etexts; simpl.
  - apply mapM_Some in Etexts.
    assert (forall k name id,
              payloadFields !! k = Some (name, id) ->
              exists i f, getElementById id d = Some i /\
                          controls d !! i = Some f /\
                          texts !! k = Some (TextPart name (f_value f))) as Htexts.
    { intros k name id Hk.
      destruct (Forall2_lookup_l _ _ _ _ _ Etexts Hk) as (y & Hy & Hf).
      simpl in Hf. destruct (getElementById id d) as [i|] eqn:Ei; simpl in Hf; [|done].
      injection Hf as <-.
      destruct (getElementById_Some id d i Ei) as (f & Hcf & _).
      exists i, f. unfold valueAt in Hy. rewrite Hcf in Hy. simpl in Hy. done. }
    assert (map partName texts = map fst payloadFields) as Hnames.
    { clear Htexts Hn. induction Etexts as [|[name id] y l k Hxy _ IH]; simpl; [done|].
      f_equal; [|done].
      destruct (getElementById id d); simpl in Hxy; [|done]. by injection Hxy as <-. }
    assert (length texts = n) as Hlen.
    { subst n. symmetry. by eapply Forall2_length. }
    split.
    + destruct (documents d) as [files|]; simpl; [|done].
      intros formData [= <-]. exists files. split; [done|]. split; [|split].
      * rewrite map_app, Hnames, map_map.
        transitivity (map fst payloadFields ++ replicate (length files) "documents")%list;
          [|reflexivity].
        apply (f_equal (app (map fst payloadFields))).
        clear. induction files as [|file files IH]; [done|].
        simpl. f_equal. exact IH.
      * intros k name id Hk. destruct (Htexts k name id Hk) as (i & f & ? & ? & Hl).
        exists i, f. split; [done|]. split; [done|].
        by rewrite lookup_app_l by (by eapply lookup_lt_Some).
      * intros j file Hj. rewrite <- Hlen, lookup_app_r by lia.
        replace (length texts + j - length texts)%nat with j by lia.
        by rewrite list_lookup_fmap, Hj.
    + destruct (documents d) as [files|]; simpl.
      * split; [done|]. intros [(name & id & Hin & Hnone)|]; [|done].
        apply list_elem_of_lookup in Hin as [k Hk].
        destruct (Htexts k name id Hk) as (i & _ & ? & _). congruence.
      * split; [by right|done].
  - split; [done|]. split; [|done]. intros _. left.
    assert (~ Forall (fun x : string * string => is_Some (getElementById x.2 d))
              payloadFields) as Hnot.
    { intros Hall.
      assert (is_Some (mapM (fun '(name, id) =>
                               i ← getElementById id d;
                               Some (TextPart name (valueAt i d))) payloadFields))
        as [? Hsome]; [|congruence].
      apply mapM_is_Some. eapply Forall_impl; [exact Hall|].
      intros [name id] [i Hi]. simpl in *. rewrite Hi. by eexists. }
    apply not_Forall_Exists in Hnot; [|intros x; apply _].
    apply Exists_exists in Hnot as ([name id] & Hin & Hx). simpl in Hx.
    exists name, id. split; [done|].
    destruct (getElementById id d); [|done]. destruct Hx. by eexists.
Qed.

(** ** Submission and navigation *)

(** X3. [handleActivitySubmit] looks at the current step only, whichever
    it is: it issues the request exactly when that step validates and the
    payload can be assembled, and then the overlay is up and the manager is
    as before. In every other case no request goes out, nothing is
    suspended and, unlike [nextStep], no notification is shown. *)
Theorem handleActivitySubmit_sends_iff (w : World) :
  let valid := fst (validateCurrentStep D (currentStep (manager w)) (page w)) in
  let w1 := handleActivitySubmit D w in
  (forall formData,
     valid = true -> collectFormData (page w) = Some formData ->
     requests w1 = (requests w ++ [PostActivities formData])%list /\
     awaiting w1 = <[length (requests w) := AwaitSubmit]> (awaiting w) /\
     loadingOverlay w1 = true) /\
  (valid = false \/ collectFormData (page w) = None ->
   requests w1 = requests w /\ awaiting w1 = awaiting w /\
   loadingOverlay w1 = loadingOverlay w) /\
  toasts w1 = toasts w /\ manager w1 = manager w /\
  content (page w1) = content (page w).
Proof.
  intros valid w1. subst valid w1.
  pose proof (validateCurrentStep_content D (currentStep (manager w)) (page w)) as Hc.
  unfold handleActivitySubmit.
  destruct (validateCurrentStep D _ (page w)) as [ok d]. simpl in *.
  rewrite <- (collectFormData_content d (page w) Hc).
  destruct ok; simpl.
  - destruct (collectFormData d) as [fd|]; simpl.
    + split; [by intros ? _ [= <-]|]. split; [by intros [|]|done].
    + split; [done|]. done.
  - split; [done|]. done.
Qed.

(** X4. [previousStep] never validates: the page, the notifications and
    the requests are untouched. Above step 1 it moves one step back, at
    step 1 it does nothing; and it undoes a [nextStep] that advanced. *)
Theorem previousStep_unconditional (w : World) :
  page (previousStep w) = page w /\
  toasts (previousStep w) = toasts w /\
  requests (previousStep w) = requests w /\
  (1 < currentStep (manager w) ->
   currentStep (manager (previousStep w)) = currentStep (manager w) - 1) /\
  (currentStep (manager w) <= 1 -> previousStep w = w) /\
  (1 <= currentStep (manager w) ->
   currentStep (manager (nextStep D w)) = currentStep (manager w) + 1 ->
   currentStep (manager (previousStep (nextStep D w))) = currentStep (manager w)).
Proof.
  unfold previousStep at 1 2 3 4 5.
  destruct (Z.ltb_spec 1 (currentStep (manager w))); simpl;
    (split; [done|]; split; [done|]; split; [done|]; split; [try done; lia|];
     split; [try done; lia|]).
  - intros _ Hadv. unfold previousStep. rewrite Hadv.
    destruct (Z.ltb_spec 1 (currentStep (manager w) + 1)); simpl; lia.
  - intros ? Hadv. unfold previousStep. rewrite Hadv.
    destruct (Z.ltb_spec 1 (currentStep (manager w) + 1)); simpl; lia.
Qed.

(** ** Filtering and searching *)

(** X5. A filter chosen while a load is in flight is recorded (and the page
    reset to 1) but never requested. Chosen with no load in flight, it is
    requested with page 1, [status] left out exactly for the filter [all]
    and [search] left out exactly when no text was searched. So two filter
    clicks in a row followed by the response leave [currentFilter] at the
    second filter while the list shown is the one fetched for the first. *)
Theorem filterActivities_while_loading (w : World) (filter : string) :
  let m := manager w in
  currentFilter (manager (filterActivities filter w)) = filter /\
  currentPage (manager (filterActivities filter w)) = 1 /\
  (isLoading m = true -> requests (filterActivities filter w) = requests w) /\
  (isLoading m = false ->
   requests (filterActivities filter w)
   = (requests w ++ [GetActivities 1 (itemsPerPage m) (statusParam filter)
                                    (searchParam (searchQuery m))])%list) /\
  (isLoading m = false ->
   forall filter' acts,
     let w' := run D w [ClickFilter filter; ClickFilter filter';
                        Settle (length (requests w)) (Resolved acts)] in
     requests w'
     = (requests w ++ [GetActivities 1 (itemsPerPage m) (statusParam filter)
                                      (searchParam (searchQuery m))])%list /\
     currentFilter (manager w') = filter' /\
     activities (manager w') = acts /\
     isLoading (manager w') = false).
Proof.
  intros m. subst m.
  assert (requests (filterActivities filter w)
          = if isLoading (manager w) then requests w
            else (requests w ++ [GetActivities 1 (itemsPerPage (manager w))
                                   (statusParam filter)
                                   (searchParam (searchQuery (manager w)))])%list)
    as Hreq.
  { unfold filterActivities, loadActivities, statusParam, searchParam. simpl.
    destruct (isLoading (manager w)); [done|].
    by destruct (String.eqb filter "all"). }
  split; [|split; [|split; [|split]]].
  - unfold filterActivities, loadActivities. simpl. by destruct (isLoading _).
  - unfold filterActivities, loadActivities. simpl. by destruct (isLoading _).
  - intros El. by rewrite Hreq, El.
  - intros El. by rewrite Hreq, El.
  - intros El filter' acts. rewrite El in Hreq. revert Hreq. simpl.
    unfold filterActivities, loadActivities, settle. simpl. rewrite El. simpl.
    rewrite lookup_insert_eq. simpl. intros Hreq. done.
Qed.

(** ** The rendered file entries *)

Lemma clearFieldError_files (i : nat) (d : Document) :
  selectedFiles (clearFieldError i d) = selectedFiles d /\
  documents (clearFieldError i d) = documents d /\
  fileUploadArea (clearFieldError i d) = fileUploadArea d.
Proof. unfold clearFieldError. by destruct (controls d !! i). Qed.

Lemma showFieldError_fileUploadArea (i : nat) (message : string) (d : Document) :
  fileUploadArea (showFieldError i message d) = fileUploadArea d.
Proof. unfold showFieldError. by destruct (controls d !! i). Qed.

Lemma validateField_fileUploadArea (i : nat) (d : Document) :
  fileUploadArea (snd (validateField i d)) = fileUploadArea d.
Proof.
  unfold validateField. destruct (controls d !! i) as [f|]; [|done].
  destruct (clearFieldError_files i d) as (_ & _ & Hc).
  destruct (fieldVerdict f) as [[] msg]; simpl; [done|].
  by rewrite showFieldError_fileUploadArea.
Qed.

Lemma validateDates_fileUploadArea (d : Document) :
  fileUploadArea (snd (validateDates D d)) = fileUploadArea d.
Proof.
  unfold validateDates.
  destruct (getElementById "startDate" d), (getElementById "endDate" d) as [e|];
    try done.
  destruct (JS.truthy _ && JS.truthy _); [|done].
  destruct (Date_lt _ _ _); simpl.
  - apply showFieldError_fileUploadArea.
  - by destruct (clearFieldError_files e d) as (_ & _ & ?).
Qed.

Lemma validateCurrentStep_fileUploadArea (n : Z) (d : Document) :
  fileUploadArea (snd (validateCurrentStep D n d)) = fileUploadArea d.
Proof.
  unfold validateCurrentStep, validateFields.
  destruct (queryFormStep n d) as [st|]; [|done].
  assert (forall fields b d0,
            fileUploadArea
              (snd (foldl (fun '(allValid, d) i =>
                             let '(ok, d') := validateField i d in
                             (if negb ok then false else allValid, d'))
                          (b, d0) fields))
            = fileUploadArea d0) as Hfold.
  { induction fields as [|i fields IH]; intros b d0; simpl; [done|].
    pose proof (validateField_fileUploadArea i d0) as Hi.
    destruct (validateField i d0) as [ok d']. simpl in Hi.
    by rewrite IH. }
  specialize (Hfold (step_fields st) true d).
  destruct (foldl _ _ _) as [allValid d1]; simpl in *.
  destruct (n =? 2); [|done].
  pose proof (validateDates_fileUploadArea d1) as Hd.
  destruct (validateDates D d1) as [r d2]; simpl in *. congruence.
Qed.

Lemma displaySelectedFiles_sync (files : list File) (d : Document) :
  filesInSync (displaySelectedFiles files (set_documents (Some files) d)) /\
  fileUploadArea (displaySelectedFiles files (set_documents (Some files) d))
  = fileUploadArea d.
Proof.
  unfold filesInSync, displaySelectedFiles. simpl.
  destruct (selectedFiles d) eqn:E; simpl; [done|]. by rewrite E.
Qed.

(** On a page with the upload area every event keeps the rendered entries
    and the file list of the input together. *)
Lemma step_filesInSync (w : World) (e : Event) :
  fileUploadArea (page w) = true ->
  filesInSync (page w) ->
  fileUploadArea (page (step D w e)) = true /\ filesInSync (page (step D w e)).
Proof.
  intros Harea Hs.
  assert (forall d, content d = content (page w) ->
                    fileUploadArea d = fileUploadArea (page w) ->
                    fileUploadArea d = true /\ filesInSync d) as Hcontent.
  { intros d Hc Ha. split; [congruence|]. unfold filesInSync, content in *.
    injection Hc as _ _ _ -> ->. done. }
  destruct e; simpl; try (by split).
  - pose proof (validateCurrentStep_content D (currentStep (manager w)) (page w)) as Hc.
    pose proof (validateCurrentStep_fileUploadArea (currentStep (manager w)) (page w))
      as Ha.
    unfold handleActivitySubmit.
    destruct (validateCurrentStep D _ (page w)) as [[] d]; simpl in *;
      [|by apply Hcontent].
    destruct (collectFormData d); by apply Hcontent.
  - pose proof (validateCurrentStep_content D (currentStep (manager w)) (page w)) as Hc.
    pose proof (validateCurrentStep_fileUploadArea (currentStep (manager w)) (page w))
      as Ha.
    unfold nextStep.
    destruct (validateCurrentStep D _ (page w)) as [[] d]; simpl in *;
      [|by apply Hcontent].
    destruct (_ <? _); by apply Hcontent.
  - unfold previousStep. destruct (_ <? _); by split.
  - apply Hcontent; [apply validateField_content|apply validateField_fileUploadArea].
  - unfold typeInto. destruct (controls (page w) !! i) as [f|]; [|by split].
    unfold filesInSync in *.
    destruct (clearFieldError_files i
                (set_controls (<[i := mkField (f_id f) (f_name f) (f_required f)
                                        value (f_default f) (f_parent f)]>
                                 (controls (page w))) (page w))) as (-> & -> & ->).
    by split.
  - apply Hcontent; [apply validateDates_content|apply validateDates_fileUploadArea].
  - destruct (fileListeners (page w)); [|by split]. simpl.
    unfold handleFileDrop. destruct (documents (page w)); simpl; [|by split].
    destruct (displaySelectedFiles_sync files (page w)) as [? ->]. by split.
  - unfold fileListeners. rewrite Harea.
    destruct (documents (page w)); simpl; [|by split].
    unfold handleFileSelect. simpl.
    destruct (displaySelectedFiles_sync files (page w)) as [? ->]. by split.
  - unfold removeFile. destruct (documents (page w)) as [files|]; simpl; [|by split].
    destruct (displaySelectedFiles_sync (keepOthers index 0 files) (page w)) as [? ->].
    by split.
  - unfold filterActivities, loadActivities. simpl. destruct (isLoading _); by split.
  - unfold handleSearch, loadActivities. simpl. destruct (isLoading _); by split.
  - unfold generatePortfolio. destruct (isGenerating w); by split.
  - unfold settle. destruct (awaiting w !! request) as [k|]; [|by split].
    destruct k, r; by split.
Qed.

(** X6. On a page with the upload area, the entries rendered in
    [#selectedFiles] and the file list of the input cannot drift apart:
    dropping, picking and removing files render the list they leave in the
    input, and nothing else touches either. So the index shown on an entry
    is the index [removeFile] removes, after any sequence of events; and a
    drop leaves exactly the dropped files, whatever the list held before. *)
Theorem files_stay_in_sync (w : World) (events : list Event) :
  fileUploadArea (page w) = true ->
  filesInSync (page w) ->
  filesInSync (page (run D w events)) /\
  (forall old dropped,
     documents (page w) = Some old ->
     documents (page (step D w (DropFiles dropped))) = Some dropped /\
     filesInSync (page (step D w (DropFiles dropped)))).
Proof.
  intros Harea Hs. split.
  - revert w Harea Hs. induction events as [|e events IH]; intros w Harea Hs;
      simpl; [done|].
    destruct (step_filesInSync w e Harea Hs) as [Ha' Hs']. by apply IH.
  - intros old dropped Hd.
    split; [|by apply (step_filesInSync w (DropFiles dropped))].
    simpl. unfold fileListeners, handleFileDrop, displaySelectedFiles.
    rewrite Hd, Harea. simpl. by destruct (selectedFiles (page w)).
Qed.

(** ** Error markers *)

(** X7. What [validateField] leaves on the page. The control carries the
    error class exactly when it is invalid, and the class of every other
    control is as before. Of the error nodes inside the container of the
    control, its own and those of the elements nested in it alike, the
    first goes when the control is valid; when it is invalid the first two
    go and the message of the failed rule is appended. So a container that
    held at most one error node ends up with exactly that message, or with
    none. *)
Theorem validateField_marks (i : nat) (f : Field) (d : Document) :
  controls d !! i = Some f ->
  let d' := snd (validateField i d) in
  let before := default [] (formErrors d !! f_parent f) in
  (i ∈ errorClass d' <-> fst (fieldVerdict f) = false) /\
  (forall j, j <> i -> (j ∈ errorClass d' <-> j ∈ errorClass d)) /\
  default [] (formErrors d' !! f_parent f)
  = (if fst (fieldVerdict f) then drop 1 before
     else drop 2 before ++ [snd (fieldVerdict f)])%list /\
  (markers_wf d ->
   formErrors d' !! f_parent f
   = if fst (fieldVerdict f) then None else Some [snd (fieldVerdict f)]).
Proof.
  clear D. intros Hf d' before. subst d' before.
  pose proof (validateField_errorsAt i f d Hf) as He.
  split; [|split; [|split]].
  - rewrite (validateField_errorClass i i f d Hf). intuition congruence.
  - intros j Hj. rewrite (validateField_errorClass i j f d Hf). intuition congruence.
  - by rewrite !formErrors_errorsAt.
  - intros Hwf. pose proof (proj1 (markers_wf_errorsAt d) Hwf (f_parent f)) as Hle. clear Hwf.
    rewrite formErrors_lookup, He.
    destruct (errorsAt (f_parent f) (nodes d)) as [|x [|y l]]; simpl in *;
      [| |lia]; by destruct (fst (fieldVerdict f)).
Qed.

(** X8. Controls that share a container share its single error node: once
    two invalid controls of one container have been validated, both carry
    the error class but the container shows only the message of the one
    validated last. *)
Theorem shared_container_shows_last (i j : nat) (fi fj : Field) (d : Document) :
  markers_wf d ->
  i <> j ->
  controls d !! i = Some fi -> controls d !! j = Some fj ->
  f_parent fi = f_parent fj ->
  fst (fieldVerdict fi) = false -> fst (fieldVerdict fj) = false ->
  let d' := snd (validateField j (snd (validateField i d))) in
  i ∈ errorClass d' /\ j ∈ errorClass d' /\
  formErrors d' !! f_parent fi = Some [snd (fieldVerdict fj)].
Proof.
  intros Hwf Hij Hi Hj Hp Hvi Hvj d'. subst d'.
  pose proof (validateField_content i d) as Hc.
  assert (controls (snd (validateField i d)) !! j = Some fj) as Hj1.
  { by rewrite (content_controls _ _ Hc). }
  split; [|split].
  - apply (validateField_errorClass j i fj _ Hj1). right. split; [done|].
    apply (validateField_errorClass i i fi d Hi). by left.
  - apply (validateField_errorClass j j fj _ Hj1). by left.
  - pose proof (proj1 (markers_wf_errorsAt d) Hwf (f_parent fi)) as Hle. clear Hwf.
    rewrite formErrors_lookup, Hp, (validateField_errorsAt j fj _ Hj1), Hvj.
    rewrite <- Hp, (validateField_errorsAt i fi d Hi), Hvi.
    destruct (errorsAt (f_parent fi) (nodes d)) as [|x [|y l]]; simpl in *;
      [done|done|lia].
Qed.

(** X9. The date error does not survive a blur: when [validateDates] has
    marked the end-date control and the control is then validated on its
    own and passes its own rule, the marker and the message are gone,
    although the dates are still in the wrong order. *)
Theorem blur_erases_date_error (e : nat) (f : Field) (d : Document) :
  markers_wf d ->
  getElementById "endDate" d = Some e ->
  controls d !! e = Some f ->
  fst (fieldVerdict f) = true ->
  fst (validateDates D d) = Some false ->
  let d1 := snd (validateDates D d) in
  let d2 := snd (validateField e d1) in
  e ∈ errorClass d1 /\
  formErrors d1 !! f_parent f = Some ["End date must be after start date"] /\
  (e ∉ errorClass d2) /\
  formErrors d2 !! f_parent f = None /\
  fst (validateDates D d2) = Some false.
Proof.
  intros Hwf He Hf Hv Hfalse d1 d2. subst d1 d2.
  pose proof (validateDates_content D d) as Hc.
  assert (snd (validateDates D d)
          = showFieldError e "End date must be after start date" d) as Hd.
  { revert Hfalse. unfold validateDates. rewrite He.
    destruct (getElementById "startDate" d); [|done].
    destruct (JS.truthy _ && JS.truthy _); [|done].
    by destruct (Date_lt D _ _). }
  assert (controls (snd (validateDates D d)) !! e = Some f) as Hf1.
  { by rewrite (content_controls _ _ Hc). }
  pose proof (proj1 (markers_wf_errorsAt d) Hwf (f_parent f)) as Hle. clear Hwf.
  assert (errorsAt (f_parent f) (nodes (snd (validateDates D d)))
          = ["End date must be after start date"]) as Hshown.
  { rewrite Hd, (showFieldError_errorsAt e f) by done.
    destruct (errorsAt (f_parent f) (nodes d)) as [|x [|y l]]; simpl in *;
      [done|done|lia]. }
  split; [|split; [|split; [|split]]].
  - rewrite Hd. apply (showFieldError_errorClass e e f); [done|by left].
  - by rewrite formErrors_lookup, Hshown.
  - intros Hin. apply (validateField_errorClass e e f _ Hf1) in Hin.
    destruct Hin as [[_ ?]|[? _]]; congruence.
  - by rewrite formErrors_lookup, (validateField_errorsAt e f _ Hf1), Hv, Hshown.
  - rewrite <- Hfalse. apply validateDates_verdict_content.
    by rewrite validateField_content.
Qed.

Lemma validateFields_errorClass (fields : list nat) (b : bool) (d : Document) (j : nat) :
  Forall (fun i => is_Some (controls d !! i)) fields ->
  (j ∈ errorClass
         (snd (foldl (fun '(allValid, d) i =>
                        let '(ok, d') := validateField i d in
                        (if negb ok then false else allValid, d'))
                     (b, d) fields)) <->
   if decide (j ∈ fields) then fieldPasses d j = false else j ∈ errorClass d).
Proof.
  revert b d. induction fields as [|i fields IH]; intros b d Hall.
  - simpl. destruct (decide (j ∈ [])) as [Hin|]; [|done].
    by apply not_elem_of_nil in Hin.
  - cbn [foldl]. apply Forall_cons in Hall as [[f Hf] Hall].
    pose proof (validateField_content i d) as Hc.
    pose proof (validateField_errorClass i j f d Hf) as Hi.
    destruct (validateField i d) as [ok d']; simpl in *.
    rewrite IH; cycle 1.
    { eapply Forall_impl; [exact Hall|]. intros k Hk. simpl in Hk.
      by rewrite (content_controls _ _ Hc). }
    pose proof (fieldPasses_content d' d j Hc) as Hp.
    destruct (decide (j ∈ fields)) as [Hin|Hnin].
    + rewrite decide_True by (apply elem_of_cons; by right). by rewrite Hp.
    + rewrite Hi. destruct (decide (j = i)) as [->|Hne].
      * rewrite decide_True by (apply elem_of_cons; by left).
        unfold fieldPasses. rewrite Hf. intuition congruence.
      * rewrite decide_False; [intuition congruence|].
        intros Hin. apply elem_of_cons in Hin as [|]; done.
Qed.

(** X10. On a step other than 2 whose controls are all on the page,
    [validateCurrentStep] succeeds exactly when it leaves none of the
    controls of the step with the error class; and each control of the step
    ends up with the class exactly when it is invalid. *)
Theorem validateCurrentStep_verdict_is_marks (n : Z) (st : FormStep) (d : Document) :
  queryFormStep n d = Some st ->
  n <> 2 ->
  Forall (fun i => is_Some (controls d !! i)) (step_fields st) ->
  let r := validateCurrentStep D n d in
  (forall i, i ∈ step_fields st ->
             (i ∈ errorClass (snd r) <-> fieldPasses d i = false)) /\
  (fst r = true <-> forall i, i ∈ step_fields st -> i ∉ errorClass (snd r)).
Proof.
  intros Hst Hn Hall r.
  assert (forall i, i ∈ step_fields st ->
                    (i ∈ errorClass (snd r) <-> fieldPasses d i = false)) as Hmarks.
  { intros i Hi. subst r. unfold validateCurrentStep, validateFields. rewrite Hst.
    pose proof (validateFields_errorClass (step_fields st) true d i Hall) as H.
    destruct (foldl _ _ _) as [allValid d1]. simpl in H.
    destruct (Z.eqb_spec n 2); [done|]. simpl.
    by rewrite decide_True in H. }
  split; [done|].
  subst r. rewrite (validateCurrentStep_verdict D n d st Hst).
  destruct (Z.eqb_spec n 2); [done|]. rewrite andb_true_r, forallb_forall.
  split.
  - intros Hok i Hi Hin. apply (Hmarks i Hi) in Hin.
    apply list_elem_of_In in Hi. rewrite (Hok i Hi) in Hin. done.
  - intros Hno i Hi. apply list_elem_of_In in Hi.
    destruct (fieldPasses d i) eqn:E; [done|].
    destruct (Hno i Hi). by apply Hmarks.
Qed.


(** X11. Typing into a control stores the value and removes the error
    class from that control, whether or not the new value is valid; the
    values of the other controls are untouched, and, given at most one
    error node per container, the container of the control is left without
    an error node. The error comes back no earlier than the next
    validation. *)
Theorem typeInto_clears (i : nat) (f : Field) (value : string) (d : Document) :
  controls d !! i = Some f ->
  let d' := typeInto i value d in
  valueAt i d' = value /\
  (forall j, j <> i -> controls d' !! j = controls d !! j) /\
  (i ∉ errorClass d') /\
  (markers_wf d -> formErrors d' !! f_parent f = None).
Proof.
  clear D. intros Hf d'. subst d'. unfold typeInto. rewrite Hf.
  assert ((length (controls d) > i)%nat) as Hlen by (by eapply lookup_lt_Some).
  set (f' := mkField (f_id f) (f_name f) (f_required f) value (f_default f)
                     (f_parent f)).
  set (d0 := set_controls (<[i := f']> (controls d)) d).
  assert (controls d0 !! i = Some f') as Hf'.
  { subst d0. simpl. apply list_lookup_insert_eq. lia. }
  pose proof (clearFieldError_content i d0) as Hc.
  split; [|split; [|split]].
  - unfold valueAt. by rewrite (content_controls _ _ Hc), Hf'.
  - intros j Hj. rewrite (content_controls _ _ Hc). subst d0. simpl.
    by rewrite list_lookup_insert_ne.
  - intros Hin. apply (clearFieldError_errorClass i i f' d0 Hf') in Hin. tauto.
  - intros Hwf. pose proof (proj1 (markers_wf_errorsAt d) Hwf (f_parent f)) as Hle. clear Hwf.
    rewrite formErrors_lookup.
    change (f_parent f) with (f_parent f') at 1.
    rewrite (clearFieldError_errorsAt i f' d0 Hf'). subst d0 f'. simpl.
    destruct (errorsAt (f_parent f) (nodes d)) as [|x [|y l]]; simpl in *;
      [done|done|lia].
Qed.

(** ** Resetting *)

Lemma formErrors_withoutFormErrors (d : Document) (ec : gset nat) :
  formErrors (set_markers ec (withoutFormErrors (nodes d)) d) = ∅.
Proof.
  apply map_eq. intros p. rewrite lookup_empty, formErrors_lookup. simpl.
  unfold errorsAt. rewrite childrenOf_withoutFormErrors.
  destruct (childrenOf p (nodes d)); simpl; [|done].
  by rewrite errorsIn_withoutFormErrors.
Qed.

(** X12. [resetForm] is idempotent and leaves alone the requests, the
    suspended methods and the in-progress flags; on a page without the form
    it does nothing at all, not even reset the step. *)
Theorem resetForm_idempotent (w : World) :
  resetForm (resetForm w) = resetForm w /\
  net (resetForm w) = net w /\
  toasts (resetForm w) = toasts w /\
  (addActivityForm (page w) = false -> resetForm w = w) /\
  (addActivityForm (page w) = true ->
   currentStep (manager (resetForm w)) = 1 /\
   Forall (fun f => f_value f = f_default f) (controls (page (resetForm w))) /\
   errorClass (page (resetForm w)) = ∅ /\ formErrors (page (resetForm w)) = ∅).
Proof.
  unfold resetForm. destruct (addActivityForm (page w)) eqn:Ef; simpl.
  - split; [|split; [done|split; [done|split; [done|]]]].
    + unfold set_page, set_manager, set_currentStep. simpl. f_equal. f_equal.
      * rewrite map_map. simpl. done.
      * apply withoutFormErrors_idem.
      * by destruct (documents (page w)).
      * by destruct (selectedFiles (page w)).
    + intros _. split; [done|]. split; [|split; [done|]].
      * apply Forall_forall. intros f Hin. apply list_elem_of_In in Hin.
        apply in_map_iff in Hin as (g & <- & _). done.
      * apply (formErrors_withoutFormErrors (page w) ∅).
  - rewrite Ef. done.
Qed.

(** ** Portfolio generation *)

(** No event issues a portfolio request, suspends a generation or leaves
    [isGenerating] set. *)
Lemma step_no_generation (w : World) (e : Event) :
  filter (fun r => isPostPortfolioGenerate r = true) (requests (step D w e))
  = filter (fun r => isPostPortfolioGenerate r = true) (requests w) /\
  (forall rq, awaiting (step D w e) !! rq = Some AwaitGenerate ->
              awaiting w !! rq = Some AwaitGenerate) /\
  (isGenerating w = false -> isGenerating (step D w e) = false).
Proof.
  assert (forall k rq0 w0,
            k <> AwaitGenerate -> isPostPortfolioGenerate rq0 = false ->
            filter (fun r => isPostPortfolioGenerate r = true) (requests (await k rq0 w0))
            = filter (fun r => isPostPortfolioGenerate r = true) (requests w0) /\
            (forall rq, awaiting (await k rq0 w0) !! rq = Some AwaitGenerate ->
                        awaiting w0 !! rq = Some AwaitGenerate) /\
            isGenerating (await k rq0 w0) = isGenerating w0) as Hawait.
  { intros k rq0 w0 Hk Hrq. simpl. split; [|split; [|done]].
    - rewrite filter_app. rewrite filter_cons_False by (by rewrite Hrq).
      by rewrite filter_nil, app_nil_r.
    - intros rq. rewrite lookup_insert. case_decide; [|done]. congruence. }
  assert (forall w0,
            filter (fun r => isPostPortfolioGenerate r = true) (requests (loadActivities w0))
            = filter (fun r => isPostPortfolioGenerate r = true) (requests w0) /\
            (forall rq, awaiting (loadActivities w0) !! rq = Some AwaitGenerate ->
                        awaiting w0 !! rq = Some AwaitGenerate) /\
            isGenerating (loadActivities w0) = isGenerating w0) as Hload.
  { intros w0. unfold loadActivities. destruct (isLoading (manager w0)); [done|].
    match goal with
    | |- context [await ?k ?rq ?w1] =>
        destruct (Hawait k rq w1) as (H1 & H2 & H3); [done|done|]
    end.
    split; [exact H1|split; [exact H2|exact H3]]. }
  destruct e; simpl; try done.
  - unfold handleActivitySubmit.
    destruct (validateCurrentStep D _ (page w)) as [[] d]; simpl; [|done].
    destruct (collectFormData d) as [formData|]; [|done].
    destruct (Hawait AwaitSubmit (PostActivities formData)
                (set_loadingOverlay true (set_page d w))) as (H1 & H2 & H3);
      [done|done|]. by rewrite H3.
  - unfold nextStep.
    destruct (validateCurrentStep D _ (page w)) as [[] d]; simpl; [|done].
    by destruct (_ <? _).
  - unfold previousStep. by destruct (_ <? _).
  - by destruct (fileListeners (page w)).
  - by destruct (documents (page w)).
  - by destruct (removeFile index (page w)).
  - unfold filterActivities.
    destruct (Hload (set_manager (set_query filter (searchQuery (manager w))
                                    (manager w)) w)) as (H1 & H2 & H3).
    by rewrite H3.
  - unfold handleSearch.
    destruct (Hload (set_manager (set_query (currentFilter (manager w)) (Some q)
                                    (manager w)) w)) as (H1 & H2 & H3).
    by rewrite H3.
  - unfold generatePortfolio. destruct (isGenerating w) eqn:Eg; simpl; done.
  - unfold settle. destruct (awaiting w !! request) as [k|] eqn:Ek; [|done].
    assert (forall rq, delete request (awaiting w) !! rq = Some AwaitGenerate ->
                       awaiting w !! rq = Some AwaitGenerate) as Hdel.
    { intros rq H. apply lookup_delete_Some in H as [_ H]. done. }
    destruct k, r; simpl; done.
Qed.

(** X13. [generatePortfolio] never gets as far as its request. With
    [isGenerating] down it raises the flag and calls the notifier for the
    loading message; the call throws, the [catch] calls the notifier again,
    which throws again, and the [finally] lowers the flag. With the flag
    up the warning is what throws. Either way nothing is requested,
    nothing is suspended, the flag is as it was and a TypeError leaves the
    method. Along every run of events from a new page
    no portfolio request is ever issued and the flag is never left set. *)
Theorem generatePortfolio_never_requests :
  (forall template w,
     requests (generatePortfolio template w) = requests w /\
     awaiting (generatePortfolio template w) = awaiting w /\
     isGenerating (generatePortfolio template w) = isGenerating w /\
     uncaught (generatePortfolio template w)
     = (uncaught w
        ++ [TypeError "NotificationManager.showNotification is not a function"])%list) /\
  (forall d events,
     let w := run D (newWorld d) events in
     countRequests isPostPortfolioGenerate w = 0%nat /\
     ~ inFlight AwaitGenerate w /\
     isGenerating w = false).
Proof.
  split.
  - intros template w. unfold generatePortfolio.
    destruct (isGenerating w) eqn:Eg; simpl; by rewrite ?Eg.
  - intros d events w. subst w.
    assert (forall w,
              filter (fun r => isPostPortfolioGenerate r = true) (requests w) = [] /\
              (forall rq, awaiting w !! rq <> Some AwaitGenerate) /\
              isGenerating w = false ->
              filter (fun r => isPostPortfolioGenerate r = true)
                     (requests (run D w events)) = [] /\
              (forall rq, awaiting (run D w events) !! rq <> Some AwaitGenerate) /\
              isGenerating (run D w events) = false) as Hrun.
    { induction events as [|e events IH]; intros w Hw; simpl; [done|].
      apply IH. destruct Hw as (H1 & H2 & H3).
      destruct (step_no_generation w e) as (E1 & E2 & E3).
      split; [by rewrite E1|]. split; [|by apply E3].
      intros rq Hrq. apply (H2 rq). by apply E2. }
    destruct (Hrun (newWorld d)) as (H1 & H2 & H3).
    { split; [done|]. split; [|done]. intros rq. simpl. by rewrite lookup_empty. }
    split; [|split; [|done]].
    + unfold countRequests. by rewrite H1.
    + intros [rq Hrq]. by apply (H2 rq).
Qed.

(** ** The second step without its date controls *)

(** X1. [validateDates] returns nothing when one of the two date controls
    is not on the page, and [validateCurrentStep] negates what it returns:
    on step 2 of such a page validation fails whatever the controls of the
    step hold. So [nextStep] stays on step 2, without its warning, since
    the call of the notifier throws, and [handleActivitySubmit] sends
    nothing. *)
Theorem step_two_needs_date_controls (w : World) (st : FormStep) :
  currentStep (manager w) = 2 ->
  queryFormStep 2 (page w) = Some st ->
  getElementById "startDate" (page w) = None \/
  getElementById "endDate" (page w) = None ->
  fst (validateCurrentStep D 2 (page w)) = false /\
  currentStep (manager (nextStep D w)) = 2 /\
  toasts (nextStep D w) = toasts w /\
  uncaught (nextStep D w)
  = (uncaught w
     ++ [TypeError "NotificationManager.showNotification is not a function"])%list /\
  requests (handleActivitySubmit D w) = requests w.
Proof.
  intros Hstep Hst Hmissing.
  assert (fst (validateCurrentStep D 2 (page w)) = false) as Hv.
  { rewrite (validateCurrentStep_verdict D 2 (page w) st Hst). simpl.
    assert (fst (validateDates D (page w)) = None) as ->.
    { unfold validateDates.
      destruct Hmissing as [-> | ->]; [done|].
      by destruct (getElementById "startDate" (page w)). }
    apply andb_false_r. }
  split; [exact Hv|].
  unfold nextStep, handleActivitySubmit. rewrite Hstep.
  destruct (validateCurrentStep D 2 (page w)) as [ok d]. simpl in Hv. subst ok.
  simpl. done.
Qed.

End MoreProperties.

(** * Helpers of the pages *)

(** ** Strings *)

Lemma startsWith_spec (s prefix : string) :
  startsWith s prefix = true <-> exists rest, s = prefix ++ rest.
Proof.
  revert s. induction prefix as [|c p IH]; intros s.
  - destruct s; simpl; (split; [eauto|done]).
  - destruct s as [|c' s']; simpl.
    + split; [done|]. by intros [rest ?].
    + rewrite andb_true_iff, Ascii.eqb_eq, IH. split.
      * intros [-> [rest ->]]. eauto.
      * intros [rest [= -> ->]]. eauto.
Qed.

Lemma includes_spec (s sub : string) :
  includes s sub = true <-> exists a b, s = a ++ sub ++ b.
Proof.
  induction s as [|c t IH].
  - change (includes "" sub) with (startsWith "" sub || false).
    rewrite orb_false_r, startsWith_spec. split.
    + intros [rest ->]. by exists "", rest.
    + intros (a & b & H). destruct a; simpl in H; [eauto|done].
  - change (includes (String c t) sub)
      with (startsWith (String c t) sub || includes t sub).
    rewrite orb_true_iff, IH. split.
    + intros [H|(a & b & ->)].
      * apply startsWith_spec in H as [rest H]. exists "", rest. by rewrite H.
      * by exists (String c a), b.
    + intros (a & b & H). destruct a as [|c' a]; simpl in H.
      * left. apply startsWith_spec. eauto.
      * right. injection H as _ ->. eauto.
Qed.

Lemma list_ascii_of_string_app (a b : string) :
  list_ascii_of_string (a ++ b)
  = (list_ascii_of_string a ++ list_ascii_of_string b)%list.
Proof. induction a as [|c a IH]; simpl; [done|]. by rewrite IH. Qed.

(** X14. [getFileIcon] applies its rules in order and the first match
    wins: a type that begins with [image/] is an image whatever else it
    contains; otherwise one that contains [pdf] is a PDF; otherwise [word],
    a Word document; otherwise [text], a text file; and the generic icon is
    given exactly to the types that match none of the four. *)
Theorem getFileIcon_first_match (mimeType : string) :
  let image := exists rest, mimeType = "image/" ++ rest in
  let has := fun sub => exists a b, mimeType = a ++ sub ++ b in
  (getFileIcon mimeType = "image" <-> image) /\
  (getFileIcon mimeType = "file-pdf" <-> ~ image /\ has "pdf") /\
  (getFileIcon mimeType = "file-word" <-> ~ image /\ ~ has "pdf" /\ has "word") /\
  (getFileIcon mimeType = "file-alt" <->
   ~ image /\ ~ has "pdf" /\ ~ has "word" /\ has "text") /\
  (getFileIcon mimeType = "file" <->
   ~ image /\ ~ has "pdf" /\ ~ has "word" /\ ~ has "text").
Proof.
  intros image has. subst image has. unfold getFileIcon.
  pose proof (startsWith_spec mimeType "image/") as Hi.
  pose proof (includes_spec mimeType "pdf") as Hp.
  pose proof (includes_spec mimeType "word") as Hw.
  pose proof (includes_spec mimeType "text") as Ht.
  destruct (startsWith mimeType "image/"), (includes mimeType "pdf"),
    (includes mimeType "word"), (includes mimeType "text");
    repeat split; intros; try discriminate; intuition discriminate.
Qed.

(** ** Escaping *)

Lemma escapeHtml_app (s t : string) :
  escapeHtml (s ++ t) = escapeHtml s ++ escapeHtml t.
Proof.
  induction s as [|c s IH]; simpl; [done|].
  rewrite IH. unfold escapeCodeUnit.
  destruct (Ascii.eqb c "&"), (Ascii.eqb c "<"), (Ascii.eqb c ">"),
    (nat_of_ascii c =? 160)%nat; reflexivity.
Qed.

Lemma escapeCodeUnit_cases (c : ascii) :
  (c = "&"%char /\ escapeCodeUnit c = "&amp;") \/
  (c = "<"%char /\ escapeCodeUnit c = "&lt;") \/
  (c = ">"%char /\ escapeCodeUnit c = "&gt;") \/
  (c = ascii_of_nat 160 /\ escapeCodeUnit c = "&nbsp;") \/
  (c <> "&"%char /\ c <> "<"%char /\ c <> ">"%char /\ c <> ascii_of_nat 160 /\
   escapeCodeUnit c = String c EmptyString).
Proof.
  unfold escapeCodeUnit.
  destruct (Ascii.eqb_spec c "&"); [by left|].
  destruct (Ascii.eqb_spec c "<"); [by right; left|].
  destruct (Ascii.eqb_spec c ">"); [by right; right; left|].
  destruct (Nat.eqb_spec (nat_of_ascii c) 160) as [E|E].
  - right; right; right; left. split; [|done].
    by rewrite <- E, ascii_nat_embedding.
  - right; right; right; right. repeat split; try done.
    intros ->. by apply E.
Qed.

Lemma unescapeHtml_other (c : ascii) (l : list ascii) :
  c <> "&"%char -> unescapeHtml (c :: l) = c :: unescapeHtml l.
Proof.
  intros Hc. change (unescapeHtml (c :: l))
    with (if Ascii.eqb c "&" then
            match l with
            | "a"%char :: "m"%char :: "p"%char :: ";"%char :: r => "&"%char :: unescapeHtml r
            | "l"%char :: "t"%char :: ";"%char :: r => "<"%char :: unescapeHtml r
            | "g"%char :: "t"%char :: ";"%char :: r => ">"%char :: unescapeHtml r
            | "n"%char :: "b"%char :: "s"%char :: "p"%char :: ";"%char :: r =>
                ascii_of_nat 160 :: unescapeHtml r
            | _ => c :: unescapeHtml l
            end
          else c :: unescapeHtml l).
  by destruct (Ascii.eqb_spec c "&").
Qed.

Lemma unescapeHtml_escapeHtml (text : string) :
  unescapeHtml (list_ascii_of_string (escapeHtml text)) = list_ascii_of_string text.
Proof.
  induction text as [|c t IH]; [done|].
  cbn [escapeHtml]. rewrite list_ascii_of_string_app.
  destruct (escapeCodeUnit_cases c)
    as [[-> ->]|[[-> ->]|[[-> ->]|[[-> ->]|(H1 & _ & _ & _ & ->)]]]].
  - change (unescapeHtml (list_ascii_of_string "&amp;" ++ list_ascii_of_string (escapeHtml t)))
      with ("&"%char :: unescapeHtml (list_ascii_of_string (escapeHtml t))).
    by rewrite IH.
  - change (unescapeHtml (list_ascii_of_string "&lt;" ++ list_ascii_of_string (escapeHtml t)))
      with ("<"%char :: unescapeHtml (list_ascii_of_string (escapeHtml t))).
    by rewrite IH.
  - change (unescapeHtml (list_ascii_of_string "&gt;" ++ list_ascii_of_string (escapeHtml t)))
      with (">"%char :: unescapeHtml (list_ascii_of_string (escapeHtml t))).
    by rewrite IH.
  - change (unescapeHtml (list_ascii_of_string "&nbsp;" ++ list_ascii_of_string (escapeHtml t)))
      with (ascii_of_nat 160 :: unescapeHtml (list_ascii_of_string (escapeHtml t))).
    by rewrite IH.
  - cbn [list_ascii_of_string app]. rewrite unescapeHtml_other by done.
    by rewrite IH.
Qed.

(** X15. [escapeHtml] leaves no [<] and no [>] in its result, and loses
    nothing: two different texts never escape to the same string (the four
    entities read back give the text). It works piece by piece, so escaping
    two texts and joining them is escaping the joined text, and a text
    without [&], [<], [>] and the no-break space, quotes included, comes
    back unchanged. *)
Theorem escapeHtml_safe :
  (forall text c, In c (list_ascii_of_string (escapeHtml text)) ->
                  c <> "<"%char /\ c <> ">"%char) /\
  (forall s t, escapeHtml s = escapeHtml t -> s = t) /\
  (forall s t, escapeHtml (s ++ t) = escapeHtml s ++ escapeHtml t) /\
  (forall text,
     (forall c, In c (list_ascii_of_string text) ->
                c <> "&"%char /\ c <> "<"%char /\ c <> ">"%char /\
                c <> ascii_of_nat 160) ->
     escapeHtml text = text).
Proof.
  split; [|split; [|split]].
  - induction text as [|c0 t IH]; simpl; [done|].
    intros c. rewrite list_ascii_of_string_app, in_app_iff. intros [Hin|Hin].
    + destruct (escapeCodeUnit_cases c0)
        as [[_ E]|[[_ E]|[[_ E]|[[_ E]|(_ & H2 & H3 & _ & E)]]]];
        rewrite E in Hin; simpl in Hin;
        repeat (destruct Hin as [<-|Hin]; [split; congruence|]); done.
    + by apply IH.
  - intros s t H.
    apply (f_equal (fun x => unescapeHtml (list_ascii_of_string x))) in H.
    rewrite !unescapeHtml_escapeHtml in H.
    rewrite <- (string_of_list_ascii_of_string s), <- (string_of_list_ascii_of_string t).
    by rewrite H.
  - apply escapeHtml_app.
  - induction text as [|c t IH]; simpl; [done|]. intros Hsafe.
    rewrite IH by (intros c' Hc'; apply Hsafe; by right).
    destruct (Hsafe c (or_introl eq_refl)) as (H1 & H2 & H3 & H4).
    destruct (escapeCodeUnit_cases c)
      as [[? _]|[[? _]|[[? _]|[[? _]|(_ & _ & _ & _ & ->)]]]]; done.
Qed.

(** ** Passwords *)

(** X16. The verdict and the strength of [validatePassword] fit together: a
    valid password is never weak, and is strong exactly when it also has a
    special character or at least 12 characters; no password shorter than 8
    characters is strong; and a password is valid exactly when the four
    criteria shown as mandatory hold, the special character never being
    required. *)
Theorem validatePassword_consistent (password : string) :
  let r := validatePassword password in
  (isValid r = true -> strength r <> "weak") /\
  (isValid r = true ->
   (strength r = "strong" <->
    criteriaSpecial r = true \/ 12 <= Z.of_nat (String.length password))) /\
  (strength r = "strong" -> 8 <= Z.of_nat (String.length password)) /\
  (isValid r = true <->
   minLength r = true /\ criteriaUpperCase r = true /\
   criteriaLowerCase r = true /\ criteriaNumbers r = true) /\
  (strength r = "weak" \/ strength r = "medium" \/ strength r = "strong").
Proof.
  intros r. subst r. unfold validatePassword, getPasswordStrength, passwordScore.
  cbn [isValid strength criteriaSpecial minLength criteriaUpperCase
       criteriaLowerCase criteriaNumbers].
  destruct (Z.leb_spec 8 (Z.of_nat (String.length password))),
    (Z.leb_spec 12 (Z.of_nat (String.length password))),
    (hasUpperCase password), (hasLowerCase password), (hasNumbers password),
    (hasSpecial password); simpl; try lia;
    repeat split; intros; try discriminate; try lia; try tauto;
    try (left; reflexivity); try (right; left; reflexivity);
    try (right; right; reflexivity); intuition (try discriminate; try lia).
Qed.

(** ** The name of the page *)

Lemma splitOn_cons (sep : ascii) (s : string) :
  exists h r, splitOn sep s = h :: r.
Proof.
  induction s as [|c t (h & r & IH)]; simpl; [eauto|].
  destruct (Ascii.eqb c sep); [eauto|]. rewrite IH. eauto.
Qed.

Lemma splitOn_chars (sep : ascii) (s piece : string) (c : ascii) :
  In piece (splitOn sep s) -> In c (list_ascii_of_string piece) ->
  c <> sep /\ In c (list_ascii_of_string s).
Proof.
  revert piece. induction s as [|c0 t IH]; simpl; intros piece Hp Hc.
  - destruct Hp as [<-|[]]. done.
  - destruct (Ascii.eqb_spec c0 sep) as [->|Hne].
    + destruct Hp as [<-|Hp]; [done|].
      destruct (IH piece Hp Hc). auto.
    + destruct (splitOn_cons sep t) as (h & r & E). rewrite E in *.
      destruct Hp as [<-|Hp].
      * simpl in Hc. destruct Hc as [<-|Hc]; [auto|].
        destruct (IH h (or_introl eq_refl) Hc). auto.
      * destruct (IH piece (or_intror Hp) Hc). auto.
Qed.

Lemma splitOn_whole (sep : ascii) (s : string) :
  ~ In sep (list_ascii_of_string s) -> splitOn sep s = [s].
Proof.
  induction s as [|c t IH]; simpl; [done|]. intros Hn.
  destruct (Ascii.eqb_spec c sep) as [->|_]; [destruct Hn; by left|].
  rewrite IH; [done|]. intros H. apply Hn. by right.
Qed.

Lemma splitOn_last (sep : ascii) (a b : string) :
  last (splitOn sep (a ++ String sep b)) = last (splitOn sep b).
Proof.
  assert (exists h x r, splitOn sep (a ++ String sep b) = h :: x :: r /\
                        last (x :: r) = last (splitOn sep b)) as (h & x & r & -> & <-).
  { induction a as [|c a (h & x & r & E & IH)]; simpl.
    - rewrite Ascii.eqb_refl. destruct (splitOn_cons sep b) as (h & r & ->). eauto.
    - rewrite E. destruct (Ascii.eqb c sep); [|eauto].
      exists "", h, (x :: r). split; [done|]. by rewrite <- IH. }
  done.
Qed.

Lemma splitOn_head (sep : ascii) (a b : string) :
  ~ In sep (list_ascii_of_string a) ->
  head (splitOn sep (a ++ String sep b)) = Some a.
Proof.
  induction a as [|c a IH]; simpl; intros Hn.
  - by rewrite Ascii.eqb_refl.
  - destruct (Ascii.eqb_spec c sep) as [->|_]; [destruct Hn; by left|].
    assert (~ In sep (list_ascii_of_string a)) as Hn' by (intros H; apply Hn; by right).
    specialize (IH Hn').
    destruct (splitOn sep (a ++ String sep b)) as [|h r]; [done|].
    simpl in *. by injection IH as ->.
Qed.

(** X17. [getCurrentPageName] never returns the empty name or [index]
    (both become [home]) and never a name with a slash or a dot in it. For
    a path that ends in [/name.ext], or in [/name], it returns [name],
    whatever the directories before it and however many dots the extension
    has. *)
Theorem getCurrentPageName_spec :
  (forall path,
     getCurrentPageName path <> "" /\ getCurrentPageName path <> "index" /\
     ~ In "/"%char (list_ascii_of_string (getCurrentPageName path)) /\
     ~ In "."%char (list_ascii_of_string (getCurrentPageName path))) /\
  (forall dir name ext,
     ~ In "/"%char (list_ascii_of_string name) ->
     ~ In "."%char (list_ascii_of_string name) ->
     ~ In "/"%char (list_ascii_of_string ext) ->
     getCurrentPageName (dir ++ "/" ++ name ++ "." ++ ext)
     = (if String.eqb name "" || String.eqb name "index" then "home" else name) /\
     getCurrentPageName (dir ++ "/" ++ name)
     = (if String.eqb name "" || String.eqb name "index" then "home" else name)).
Proof.
  split.
  - intros path. unfold getCurrentPageName.
    set (segment := default "" (last (splitOn "/" path))).
    set (page := default "" (head (splitOn "." segment))).
    assert (forall c, In c (list_ascii_of_string segment) -> c <> "/"%char) as Hseg.
    { intros c Hc. subst segment.
      destruct (last (splitOn "/" path)) as [piece|] eqn:E; [|done].
      apply last_Some in E as [l' E].
      apply (splitOn_chars "/" path piece c); [|done].
      rewrite E. apply in_app_iff. right. by left. }
    assert (forall c, In c (list_ascii_of_string page) ->
                      c <> "."%char /\ c <> "/"%char) as Hpage.
    { intros c Hc. subst page.
      destruct (splitOn_cons "." segment) as (h & r & E). rewrite E in Hc.
      simpl in Hc.
      destruct (splitOn_chars "." segment h c) as [? Hin]; [rewrite E; by left|done|].
      split; [done|]. by apply Hseg. }
    destruct (String.eqb_spec page "") as [E1|E1]; simpl.
    + repeat split; try done; intros [|[|[|[|[]]]]]; done.
    + destruct (String.eqb_spec page "index") as [E2|E2].
      * repeat split; try done; intros [|[|[|[|[]]]]]; done.
      * repeat split; try done; intros Hin; by destruct (Hpage _ Hin).
  - intros dir name ext Hn1 Hn2 He.
    assert (forall rest, ~ In "/"%char (list_ascii_of_string rest) ->
                         default "" (last (splitOn "/" (dir ++ "/" ++ rest))) = rest)
      as Hlast.
    { intros rest Hr. change (dir ++ "/" ++ rest) with (dir ++ String "/" rest).
      by rewrite splitOn_last, splitOn_whole. }
    unfold getCurrentPageName. split.
    + rewrite Hlast.
      * change (name ++ "." ++ ext) with (name ++ String "." ext).
        by rewrite splitOn_head.
      * rewrite list_ascii_of_string_app. intros Hin.
        apply in_app_iff in Hin as [|[|]]; done.
    + rewrite Hlast by done. by rewrite splitOn_whole.
Qed.

(** ** Portfolio statistics *)

Lemma insertBy_Permutation {A : Type} (le : A -> A -> bool) (x : A) (l : list A) :
  insertBy le x l ≡ₚ x :: l.
Proof.
  induction l as [|y r IH]; simpl; [done|].
  destruct (le x y); [done|]. rewrite IH. apply Permutation_swap.
Qed.

Lemma sortBy_Permutation {A : Type} (le : A -> A -> bool) (l : list A) :
  sortBy le l ≡ₚ l.
Proof.
  induction l as [|x l IH]; simpl; [done|].
  by rewrite insertBy_Permutation, IH.
Qed.

Lemma insertBy_StronglySorted {A : Type} (le : A -> A -> bool) (x : A) (l : list A) :
  (forall a b, le a b = false -> le b a = true) ->
  (forall a b c, le a b = true -> le b c = true -> le a c = true) ->
  StronglySorted (fun a b => le a b = true) l ->
  StronglySorted (fun a b => le a b = true) (insertBy le x l).
Proof.
  intros Htotal Htrans. induction l as [|y r IH]; simpl; intros Hs.
  - by repeat constructor.
  - apply StronglySorted_inv in Hs as [Hr Hy].
    destruct (le x y) eqn:E.
    + constructor; [by constructor|]. constructor; [done|].
      eapply Forall_impl; [exact Hy|]. intros z Hz. by eapply Htrans.
    + constructor; [by apply IH|].
      rewrite insertBy_Permutation. constructor; [by apply Htotal|done].
Qed.

Lemma sortBy_StronglySorted {A : Type} (le : A -> A -> bool) (l : list A) :
  (forall a b, le a b = false -> le b a = true) ->
  (forall a b c, le a b = true -> le b c = true -> le a c = true) ->
  StronglySorted (fun a b => le a b = true) (sortBy le l).
Proof.
  intros Htotal Htrans. induction l as [|x l IH]; simpl; [constructor|].
  by apply insertBy_StronglySorted.
Qed.

Lemma ownEntries_Permutation (counts : list (string * Z)) :
  ownEntries counts ≡ₚ counts.
Proof.
  unfold ownEntries. rewrite sortBy_Permutation. apply filter_app_complement.
Qed.

Lemma occurrences_snoc (s t : string) (l : list string) :
  occurrences s (l ++ [t]) = occurrences s l + (if decide (t = s) then 1 else 0).
Proof.
  unfold occurrences. rewrite filter_app, length_app.
  destruct (decide (t = s)).
  - rewrite filter_cons_True by done. simpl. lia.
  - rewrite filter_cons_False by done. simpl. lia.
Qed.

Lemma occurrences_pos (s : string) (l : list string) :
  0 < occurrences s l <-> s ∈ l.
Proof.
  unfold occurrences. induction l as [|x l IH]; simpl.
  - split; [lia|]. intros H. by apply not_elem_of_nil in H.
  - rewrite elem_of_cons. destruct (decide (x = s)) as [->|Hne].
    + rewrite filter_cons_True by done. simpl. split; [auto|lia].
    + rewrite filter_cons_False by done. rewrite IH. split; [auto|].
      intros [->|]; done.
Qed.

Lemma bump_elem_of (t s : string) (n : Z) (counts : list (string * Z)) :
  NoDup (counts.*1) ->
  ((s, n) ∈ bump t counts <->
   (s <> t /\ (s, n) ∈ counts) \/
   (s = t /\ ((exists m, (t, m) ∈ counts /\ n = m + 1) \/
              ((t ∉ counts.*1) /\ n = 1)))).
Proof.
  induction counts as [|[k m] rest IH]; intros Hnd.
  - simpl. rewrite list_elem_of_singleton. split.
    + intros [= -> ->]. right. split; [done|]. right. split; [|done].
      apply not_elem_of_nil.
    + intros [[_ H]|[-> [(m & H & _)|[_ ->]]]]; [| |done];
        by apply not_elem_of_nil in H.
  - rewrite fmap_cons in Hnd. apply NoDup_cons in Hnd as [Hk Hnd].
    specialize (IH Hnd). rewrite fmap_cons. cbn [fst bump].
    assert (forall x, (t, x) ∈ rest -> t ∈ rest.*1) as Hkey.
    { intros x Hx. apply list_elem_of_fmap. by exists (t, x). }
    destruct (String.eqb_spec k t) as [->|Hne].
    + rewrite !elem_of_cons. split.
      * intros [E|Hin].
        -- injection E as -> ->. right. split; [done|]. left. exists m.
           split; [by left|done].
        -- left. split; [|by right]. intros ->. apply Hk. by eapply Hkey.
      * intros [[Hs [E|Hin]]|[-> [(m' & Hm & ->)|[Hnin _]]]].
        -- by injection E.
        -- by right.
        -- apply elem_of_cons in Hm as [E|Hin].
           ++ injection E as ->. by left.
           ++ destruct Hk. by eapply Hkey.
        -- destruct Hnin. by left.
    + rewrite !elem_of_cons, IH. split.
      * intros [E|[[Hs Hin]|[-> [(m' & Hm & ->)|[Hnin ->]]]]].
        -- injection E as -> ->. left. split; [done|by left].
        -- left. split; [done|by right].
        -- right. split; [done|]. left. exists m'. split; [by right|done].
        -- right. split; [done|]. right. split; [|done].
           intros [->|Hin]; done.
      * intros [[Hs [E|Hin]]|[-> [(m' & Hm & ->)|[Hnin ->]]]].
        -- by left.
        -- right. left. done.
        -- right. right. split; [done|]. left. exists m'. split; [|done].
           apply elem_of_cons in Hm as [E|Hin]; [|done]. by injection E.
        -- right. right. split; [done|]. right. split; [|done].
           intros Hin. apply Hnin. by right.
Qed.

Lemma bump_NoDup (t : string) (counts : list (string * Z)) :
  NoDup (counts.*1) -> NoDup ((bump t counts).*1).
Proof.
  induction counts as [|[k m] rest IH]; simpl; intros Hnd.
  - apply NoDup_singleton.
  - apply NoDup_cons in Hnd as [Hk Hnd].
    destruct (String.eqb_spec k t) as [->|Hne]; simpl.
    + by apply NoDup_cons.
    + apply NoDup_cons. split; [|by apply IH].
      intros Hin. apply list_elem_of_fmap in Hin as ([k' n] & -> & Hin).
      simpl in *. apply bump_elem_of in Hin; [|done].
      destruct Hin as [[_ Hin]|[-> _]]; [|done].
      apply Hk. apply list_elem_of_fmap. by exists (k', n).
Qed.

Lemma skillCounts_spec (tokens : list string) :
  let counts := foldl (fun counts skill => bump skill counts) [] tokens in
  NoDup (counts.*1) /\
  (forall s n, (s, n) ∈ counts <-> n = occurrences s tokens /\ 0 < n).
Proof.
  induction tokens as [|t tokens [Hnd IH]] using rev_ind; simpl.
  - split; [constructor|]. intros s n. split.
    + intros H. by apply not_elem_of_nil in H.
    + intros [-> H]. unfold occurrences in H. simpl in H. lia.
  - rewrite foldl_app. simpl. split; [by apply bump_NoDup|].
    intros s n. rewrite bump_elem_of by done. rewrite occurrences_snoc.
    assert (t ∉ (foldl (fun counts skill => bump skill counts) [] tokens).*1
            <-> occurrences t tokens = 0) as Hnone.
    { split.
      - intros Hnin. destruct (Z.eq_dec (occurrences t tokens) 0) as [|Hne]; [done|].
        destruct Hnin. apply list_elem_of_fmap.
        exists (t, occurrences t tokens). split; [done|]. apply IH.
        split; [done|]. unfold occurrences in *. lia.
      - intros Hz Hin. apply list_elem_of_fmap in Hin as ([k m] & -> & Hin).
        apply IH in Hin as [Hm Hpos]. simpl in *. lia. }
    split.
    + intros [[Hs Hin]|[-> [(m & Hm & ->)|[Hnin ->]]]].
      * apply IH in Hin as [-> Hpos]. rewrite decide_False by done. lia.
      * apply IH in Hm as [-> Hpos]. rewrite decide_True by done. lia.
      * apply Hnone in Hnin. rewrite decide_True by done. lia.
    + intros [-> Hpos]. destruct (decide (t = s)) as [->|Hne].
      * right. split; [done|].
        destruct (Z.eq_dec (occurrences s tokens) 0) as [Hz|Hnz].
        -- right. split; [by apply Hnone|]. lia.
        -- left. exists (occurrences s tokens). split; [|done]. apply IH.
           split; [done|]. unfold occurrences in *. lia.
      * left. split; [done|]. apply IH. split; [lia|lia].
Qed.

Lemma countTypes_spec (types : list string) (t : string) :
  foldl countType ∅ types !! t
  = if decide (occurrences t types = 0) then None else Some (occurrences t types).
Proof.
  induction types as [|x types IH] using rev_ind; simpl.
  - by rewrite lookup_empty.
  - rewrite foldl_app. simpl. unfold countType at 1. rewrite occurrences_snoc.
    assert (0 <= occurrences t types) by (unfold occurrences; lia).
    assert (0 <= occurrences x types) by (unfold occurrences; lia).
    destruct (decide (x = t)) as [->|Hne].
    + rewrite lookup_insert_eq, IH.
      destruct (decide (occurrences t types = 0)) as [->|?]; simpl; [done|].
      by rewrite decide_False by lia.
    + rewrite lookup_insert_ne by done. rewrite IH, Z.add_0_r. done.
Qed.

Lemma StronglySorted_mono {A : Type} (R1 R2 : A -> A -> Prop) (l : list A) :
  (forall a b, R1 a b -> R2 a b) -> StronglySorted R1 l -> StronglySorted R2 l.
Proof.
  intros Himpl. induction 1 as [|x l Hs IH Hall]; constructor; [done|].
  eapply Forall_impl; [exact Hall|]. intros y. apply Himpl.
Qed.

(** X18. The statistics of a portfolio. Every activity is counted once
    under its type. The skill list has at most ten entries, no skill twice,
    each with the number of times the skill occurs over all activities,
    highest count first; and a skill that is left out occurs no more often
    than any skill that is listed, which only happens when ten are listed. *)
Theorem calculateStats_sound (acts : list PortfolioActivity) (stats : Stats) :
  calculateStats acts = Some stats ->
  total_activities stats = Z.of_nat (length acts) /\
  (forall t, by_type stats !! t
             = if decide (occurrences t (map activity_type acts) = 0) then None
               else Some (occurrences t (map activity_type acts))) /\
  (length (skills stats) <= 10)%nat /\
  NoDup ((skills stats).*1) /\
  (forall s n, (s, n) ∈ skills stats ->
               n = occurrences s (allSkills acts) /\ 1 <= n) /\
  StronglySorted (fun a b => b.2 <= a.2) (skills stats) /\
  (forall s, s ∈ allSkills acts -> s ∉ (skills stats).*1 ->
             length (skills stats) = 10%nat /\
             forall e, e ∈ skills stats -> occurrences s (allSkills acts) <= e.2).
Proof.
  unfold calculateStats.
  destruct (forallb plainKey (map activity_type acts) && forallb plainKey (allSkills acts));
    [|done].
  intros [= <-]. cbn [total_activities by_type skills].
  destruct (skillCounts_spec (allSkills acts)) as [Hnd Hcounts].
  set (counts := foldl (fun counts skill => bump skill counts) [] (allSkills acts)) in *.
  set (le := fun a b : string * Z => b.2 - a.2 <=? 0).
  set (sorted := sortBy le (ownEntries counts)).
  assert (sorted ≡ₚ counts) as Hperm.
  { subst sorted. by rewrite sortBy_Permutation, ownEntries_Permutation. }
  assert (StronglySorted (fun a b => le a b = true) sorted) as Hsorted.
  { apply sortBy_StronglySorted; subst le; simpl.
    - intros a b H. apply Z.leb_gt in H. apply Z.leb_le. lia.
    - intros a b c H1 H2. apply Z.leb_le in H1, H2. apply Z.leb_le. lia. }
  assert (forall e, e ∈ take 10 sorted -> e ∈ counts) as Hin.
  { intros e He. rewrite <- Hperm. by apply (subseteq_take 10). }
  split; [done|]. split; [apply countTypes_spec|]. split; [|split; [|split; [|split]]].
  - rewrite length_take. lia.
  - rewrite fmap_take. eapply sublist_NoDup; [|apply sublist_take].
    by rewrite Hperm.
  - intros s n Hs. apply Hin, Hcounts in Hs as [-> Hpos]. split; [done|lia].
  - rewrite <- (take_drop 10 sorted) in Hsorted.
    apply StronglySorted_app_1_l in Hsorted.
    eapply StronglySorted_mono; [|exact Hsorted].
    intros a b H. subst le. simpl in H. apply Z.leb_le in H. lia.
  - intros s Hs Hnot.
    assert ((s, occurrences s (allSkills acts)) ∈ sorted) as Hentry.
    { rewrite Hperm. apply Hcounts. split; [done|]. by apply occurrences_pos. }
    rewrite <- (take_drop 10 sorted) in Hentry, Hsorted.
    apply elem_of_app in Hentry as [Htake|Hdrop].
    { destruct Hnot. apply list_elem_of_fmap. by eexists (_, _). }
    split.
    + rewrite length_take.
      assert (length (drop 10 sorted) <> 0)%nat as Hlen.
      { intros Hz. apply nil_length_inv in Hz. rewrite Hz in Hdrop.
        by apply not_elem_of_nil in Hdrop. }
      rewrite length_drop in Hlen. lia.
    + intros e He.
      pose proof (StronglySorted_app_1_elem_of _ _ _ _ _ Hsorted He Hdrop) as H.
      subst le. simpl in H. apply Z.leb_le in H. lia.
Qed.

(** * Debouncing *)

Lemma callArgs_cons {A : Type} (ev : TimerEvent A) (events : list (TimerEvent A)) :
  callArgs (ev :: events)
  = (match ev with Call args => [args] | Expire => [] end ++ callArgs events)%list.
Proof. reflexivity. Qed.

Lemma debounce_invariant {A : Type} (events : list (TimerEvent A)) :
  forall (st : Debounced A) (before : list A),
    (invoked st ++ option_list (pendingArgs st))%list `sublist_of` before ->
    (forall args, pendingArgs st = Some args -> last before = Some args) ->
    let st' := foldl debounceStep st events in
    (invoked st' ++ option_list (pendingArgs st'))%list
      `sublist_of` (before ++ callArgs events)%list /\
    (forall args, pendingArgs st' = Some args ->
                  last (before ++ callArgs events) = Some args).
Proof.
  induction events as [|ev events IH]; intros st before Hsub Hlast.
  - simpl. rewrite app_nil_r. done.
  - cbn [foldl]. rewrite callArgs_cons, app_assoc. apply IH.
    + destruct ev as [args|]; simpl.
      * apply sublist_app; [|done].
        etransitivity; [|exact Hsub]. by apply sublist_inserts_r.
      * rewrite app_nil_r. destruct (pendingArgs st) as [args|] eqn:Ep; simpl in *.
        -- by rewrite app_nil_r.
        -- by rewrite Ep.
    + destruct ev as [args|]; simpl.
      * intros ? [= <-]. apply last_snoc.
      * rewrite app_nil_r. destruct (pendingArgs st) eqn:Ep; simpl; [done|].
        rewrite Ep. done.
Qed.

Lemma debounce_burst {A : Type} (calls : list A) :
  forall (st : Debounced A) (args : A),
    foldl debounceStep st (map Call calls ++ [Call args; Expire])
    = mkDebounced None (invoked st ++ [args])%list.
Proof.
  induction calls as [|c calls IH]; intros st args; [done|].
  simpl. by rewrite IH.
Qed.

(** X19. The function [debounce] returns calls [func] only with arguments
    it was itself called with, in the order of those calls and each at most
    once; a pending timer always carries the arguments of the latest call.
    A burst of calls with no expiry in between leads to one call of [func],
    with the arguments of the last call of the burst: the earlier ones,
    and a call still pending when the burst began, are dropped. An expiry
    with no timer pending does nothing. *)
Theorem debounce_coalesces {A : Type} (events : list (TimerEvent A)) :
  invoked (debounce events) `sublist_of` callArgs events /\
  (forall args, pendingArgs (debounce events) = Some args ->
                last (callArgs events) = Some args) /\
  (forall calls args,
     debounce (events ++ map Call calls ++ [Call args; Expire])
     = mkDebounced None (invoked (debounce events) ++ [args])%list) /\
  debounce (events ++ [Expire; Expire]) = debounce (events ++ [Expire]).
Proof.
  destruct (debounce_invariant events (mkDebounced None []) []) as [Hsub Hlast];
    [done|done|].
  simpl in Hsub, Hlast. fold (debounce events) in Hsub, Hlast.
  split; [|split; [|split]].
  - etransitivity; [|exact Hsub]. by apply sublist_inserts_r.
  - exact Hlast.
  - intros calls args. unfold debounce. rewrite foldl_app. apply debounce_burst.
  - unfold debounce. rewrite !foldl_app. simpl.
    destruct (pendingArgs (foldl debounceStep _ events)) eqn:Ep; simpl; [done|].
    by rewrite Ep.
Qed.

(** * Throttling *)

Lemma throttle_sublist {A : Type} (events : list (TimerEvent A)) :
  forall (st : Throttled A) (before : list A),
    passed st `sublist_of` before ->
    passed (foldl throttleStep st events) `sublist_of` (before ++ callArgs events)%list.
Proof.
  induction events as [|ev events IH]; intros st before Hsub.
  - simpl. by rewrite app_nil_r.
  - cbn [foldl]. rewrite callArgs_cons, app_assoc. apply IH.
    destruct ev as [args|]; simpl.
    + destruct (inThrottle st); simpl.
      * by apply sublist_inserts_r.
      * by apply sublist_app.
    + by rewrite app_nil_r.
Qed.

Lemma throttle_bound {A : Type} (events : list (TimerEvent A)) :
  forall st : Throttled A,
    (length (passed (foldl throttleStep st events))
     <= length (passed st) + (if inThrottle st then 0 else 1) + expiries events)%nat.
Proof.
  induction events as [|ev events IH]; intros st.
  - simpl. lia.
  - cbn [foldl]. etransitivity; [apply IH|].
    unfold expiries. destruct ev as [args|]; simpl.
    + destruct (inThrottle st) eqn:Eup; simpl; rewrite ?Eup, ?length_app; simpl; lia.
    + destruct (inThrottle st); simpl; lia.
Qed.

Lemma throttle_closed {A : Type} (calls : list A) (st : Throttled A) :
  inThrottle st = true -> foldl throttleStep st (map Call calls) = st.
Proof.
  intros Hup. induction calls as [|c calls IH]; [done|].
  simpl. by rewrite Hup.
Qed.

(** X21. The function [throttle] returns calls [func] only with arguments
    it was itself called with, in order and each call at most once, and at
    most once more than its timer has expired. After an expiry the first
    call of a burst goes through and the others are dropped for good: they
    are not delivered when the timer expires either. *)
Theorem throttle_drops {A : Type} (events : list (TimerEvent A)) :
  passed (throttle events) `sublist_of` callArgs events /\
  (length (passed (throttle events)) <= 1 + expiries events)%nat /\
  (forall args calls,
     throttle (events ++ Expire :: Call args :: map Call calls)
     = mkThrottled true (passed (throttle events) ++ [args])%list /\
     passed (throttle (events ++ Expire :: Call args :: map Call calls ++ [Expire]))
     = (passed (throttle events) ++ [args])%list).
Proof.
  split; [|split].
  - exact (throttle_sublist events (mkThrottled false []) [] sublist_nil).
  - exact (throttle_bound events (mkThrottled false [])).
  - intros args calls.
    assert (throttle (events ++ Expire :: Call args :: map Call calls)
            = mkThrottled true (passed (throttle events) ++ [args])%list) as Hburst.
    { unfold throttle. rewrite foldl_app. simpl. by apply throttle_closed. }
    split; [exact Hburst|].
    change (Expire :: Call args :: map Call calls ++ [Expire])
      with ((Expire :: Call args :: map Call calls) ++ [Expire])%list.
    rewrite app_assoc. unfold throttle at 1. rewrite foldl_app.
    fold (throttle (events ++ Expire :: Call args :: map Call calls)).
    rewrite Hburst. reflexivity.
Qed.

(** * Matching by derivatives *)

Lemma Matches_Seq_inv (r1 r2 : regex) (l : list ascii) :
  Matches (Seq r1 r2) l ->
  exists l1 l2, l = (l1 ++ l2)%list /\ Matches r1 l1 /\ Matches r2 l2.
Proof. inversion 1; subst. eauto. Qed.

Lemma Matches_Alt_inv (r1 r2 : regex) (l : list ascii) :
  Matches (Alt r1 r2) l -> Matches r1 l \/ Matches r2 l.
Proof. inversion 1; subst; eauto. Qed.

Lemma Matches_Class_inv (p : ascii -> bool) (l : list ascii) :
  Matches (Class p) l -> exists c, l = [c] /\ p c = true.
Proof. inversion 1; subst. eauto. Qed.

Lemma Matches_Star_cons (r : regex) (c : ascii) (l : list ascii) :
  Matches (Star r) (c :: l) ->
  exists l1 l2, l = (l1 ++ l2)%list /\ Matches r (c :: l1) /\ Matches (Star r) l2.
Proof.
  intros H. remember (Star r) as s eqn:Es. remember (c :: l) as cl eqn:El.
  revert Es El.
  induction H as [| | | | | |r' l1 l2 H1 _ H2 IH2]; intros Es El; try discriminate.
  injection Es as ->. destruct l1 as [|c1 l1].
  - apply IH2; done.
  - simpl in El. injection El as -> <-. exists l1, l2. done.
Qed.

Lemma nullable_spec (r : regex) : nullable r = true <-> Matches r [].
Proof.
  induction r as [| |p|r1 IH1 r2 IH2|r1 IH1 r2 IH2|r IH]; simpl.
  - split; [done|inversion 1].
  - split; [constructor|done].
  - split; [done|]. intros H. apply Matches_Class_inv in H as (c & ? & _). done.
  - rewrite andb_true_iff, IH1, IH2. split.
    + intros [H1 H2]. exact (MSeq _ _ [] [] H1 H2).
    + intros H. apply Matches_Seq_inv in H as (l1 & l2 & Hl & H1 & H2).
      symmetry in Hl. apply app_eq_nil in Hl as [-> ->]. done.
  - rewrite orb_true_iff, IH1, IH2. split.
    + intros [H|H]; [by apply MAltL|by apply MAltR].
    + apply Matches_Alt_inv.
  - split; [constructor|done].
Qed.

Lemma deriv_spec (c : ascii) (r : regex) :
  forall l, Matches (deriv c r) l <-> Matches r (c :: l).
Proof.
  induction r as [| |p|r1 IH1 r2 IH2|r1 IH1 r2 IH2|r IH]; intros l; simpl.
  - split; inversion 1.
  - split; inversion 1.
  - destruct (p c) eqn:Ep.
    + split.
      * inversion 1; subst. by constructor.
      * intros H. apply Matches_Class_inv in H as (c' & [= <- ->] & _). constructor.
    + split; [inversion 1|].
      intros H. apply Matches_Class_inv in H as (c' & [= <- ->] & Hp). congruence.
  - assert (Matches (Seq (deriv c r1) r2) l ->
            Matches (Seq r1 r2) (c :: l)) as Hfwd.
    { intros H. apply Matches_Seq_inv in H as (l1 & l2 & -> & H1 & H2).
      apply IH1 in H1. exact (MSeq _ _ (c :: l1) l2 H1 H2). }
    destruct (nullable r1) eqn:En.
    + split.
      * intros H. apply Matches_Alt_inv in H as [H|H]; [by apply Hfwd|].
        apply IH2 in H. apply nullable_spec in En.
        exact (MSeq _ _ [] (c :: l) En H).
      * intros H. apply Matches_Seq_inv in H as (l1 & l2 & Hl & H1 & H2).
        destruct l1 as [|c1 l1]; simpl in Hl.
        -- subst l2. apply MAltR. by apply IH2.
        -- injection Hl as <- ->. apply MAltL. constructor; [by apply IH1|done].
    + split; [exact Hfwd|].
      intros H. apply Matches_Seq_inv in H as (l1 & l2 & Hl & H1 & H2).
      destruct l1 as [|c1 l1]; simpl in Hl.
      * apply nullable_spec in H1. congruence.
      * injection Hl as <- ->. constructor; [by apply IH1|done].
  - split.
    + intros H. apply Matches_Alt_inv in H as [H|H];
        [apply MAltL; by apply IH1|apply MAltR; by apply IH2].
    + intros H. apply Matches_Alt_inv in H as [H|H];
        [apply MAltL; by apply IH1|apply MAltR; by apply IH2].
  - split.
    + intros H. apply Matches_Seq_inv in H as (l1 & l2 & -> & H1 & H2).
      apply IH in H1. exact (MStarApp _ (c :: l1) l2 H1 H2).
    + intros H. apply Matches_Star_cons in H as (l1 & l2 & -> & H1 & H2).
      constructor; [by apply IH|done].
Qed.

Lemma regexTest_spec (r : regex) (text : string) :
  regexTest r text = true <-> Matches r (list_ascii_of_string text).
Proof.
  unfold regexTest. generalize (list_ascii_of_string text) as l. clear text.
  intros l. revert r. induction l as [|c l IH]; intros r; simpl.
  - apply nullable_spec.
  - rewrite IH. apply deriv_spec.
Qed.

Lemma Matches_Star_Class (p : ascii -> bool) (l : list ascii) :
  Matches (Star (Class p)) l <-> Forall (fun c => p c = true) l.
Proof.
  split.
  - intros H. remember (Star (Class p)) as s eqn:Es. revert Es.
    induction H as [| | | | | |r' l1 l2 H1 _ H2 IH2]; intros Es; try discriminate.
    + constructor.
    + injection Es as ->. apply Matches_Class_inv in H1 as (c & -> & Hc).
      constructor; [done|]. by apply IH2.
  - induction 1 as [|c l Hc _ IH]; [constructor|].
    exact (MStarApp _ [c] l (MClass p c Hc) IH).
Qed.

Lemma Matches_Plus_Class (p : ascii -> bool) (l : list ascii) :
  Matches (Plus (Class p)) l <-> l <> [] /\ Forall (fun c => p c = true) l.
Proof.
  unfold Plus. split.
  - intros H. apply Matches_Seq_inv in H as (l1 & l2 & -> & H1 & H2).
    apply Matches_Class_inv in H1 as (c & -> & Hc). apply Matches_Star_Class in H2.
    split; [done|]. by constructor.
  - intros [Hne Hall]. destruct l as [|c l]; [done|].
    apply Forall_cons in Hall as [Hc Hall].
    apply (MSeq _ _ [c] l); [by constructor|by apply Matches_Star_Class].
Qed.

Lemma emailPart_list (l : list ascii) :
  l <> [] /\ Forall (fun c => notSpaceNorAt c = true) l <->
  emailPart (string_of_list_ascii l).
Proof.
  unfold emailPart. rewrite list_ascii_of_string_of_list_ascii.
  split; intros [Hne Hall]; (split; [|done]).
  - by destruct l.
  - by intros ->.
Qed.

Lemma emailPart_count (s : string) :
  emailPart s ->
  count_occ ascii_dec (list_ascii_of_string s) "@"%char = 0%nat /\
  Forall (fun c => JS.isWhiteSpace c = false) (list_ascii_of_string s).
Proof.
  intros [_ Hall]. induction Hall as [|c l Hc _ [IH1 IH2]]; [done|].
  unfold notSpaceNorAt in Hc. apply andb_true_iff in Hc as [Hs Ha].
  apply negb_true_iff in Hs, Ha. apply Ascii.eqb_neq in Ha.
  split.
  - rewrite count_occ_cons_neq by done. exact IH1.
  - by constructor.
Qed.

(** X20. [validateEmail] accepts exactly the texts of the form
    [local@domain.tld] in which each of the three parts is non-empty and
    free of white space and of [@]. So an accepted address has exactly one
    [@] and no white space; dots are not restricted otherwise: the domain
    may begin with a dot or hold two in a row. *)
Theorem validateEmail_spec (email : string) :
  (validateEmail email = true <->
   exists localPart domain tld,
     email = localPart ++ "@" ++ domain ++ "." ++ tld /\
     emailPart localPart /\ emailPart domain /\ emailPart tld) /\
  (validateEmail email = true ->
   count_occ ascii_dec (list_ascii_of_string email) "@"%char = 1%nat /\
   Forall (fun c => JS.isWhiteSpace c = false) (list_ascii_of_string email)).
Proof.
  assert (validateEmail email = true <->
          exists localPart domain tld,
            email = localPart ++ "@" ++ domain ++ "." ++ tld /\
            emailPart localPart /\ emailPart domain /\ emailPart tld) as Hspec.
  { unfold validateEmail. rewrite regexTest_spec. unfold emailRegex. split.
    - intros H.
      apply Matches_Seq_inv in H as (a & l1 & Hl & Ha & H).
      apply Matches_Seq_inv in H as (at1 & l2 & -> & Hat & H).
      apply Matches_Seq_inv in H as (b & l3 & -> & Hb & H).
      apply Matches_Seq_inv in H as (dot & c & -> & Hdot & Hc).
      apply Matches_Class_inv in Hat as (x & -> & Hx). apply Ascii.eqb_eq in Hx.
      apply Matches_Class_inv in Hdot as (y & -> & Hy). apply Ascii.eqb_eq in Hy.
      subst x y.
      apply Matches_Plus_Class, emailPart_list in Ha, Hb, Hc.
      exists (string_of_list_ascii a), (string_of_list_ascii b), (string_of_list_ascii c).
      split; [|done].
      rewrite <- (string_of_list_ascii_of_string email), Hl.
      rewrite <- (string_of_list_ascii_of_string
                    (string_of_list_ascii a ++ "@" ++ string_of_list_ascii b ++ "." ++
                     string_of_list_ascii c)).
      f_equal. rewrite !list_ascii_of_string_app, !list_ascii_of_string_of_list_ascii.
      reflexivity.
    - intros (a & b & c & -> & Ha & Hb & Hc).
      rewrite !list_ascii_of_string_app.
      rewrite <- (string_of_list_ascii_of_string a) in Ha.
      rewrite <- (string_of_list_ascii_of_string b) in Hb.
      rewrite <- (string_of_list_ascii_of_string c) in Hc.
      apply emailPart_list, Matches_Plus_Class in Ha, Hb, Hc.
      constructor; [done|].
      apply (MSeq _ _ ["@"%char]); [by constructor|].
      constructor; [done|].
      apply (MSeq _ _ ["."%char]); [by constructor|done]. }
  split; [exact Hspec|].
  intros H. apply Hspec in H as (a & b & c & -> & Ha & Hb & Hc).
  apply emailPart_count in Ha as [Ha1 Ha2], Hb as [Hb1 Hb2], Hc as [Hc1 Hc2].
  rewrite !list_ascii_of_string_app. simpl. split.
  - rewrite !count_occ_app. simpl. rewrite !count_occ_app. simpl. lia.
  - rewrite Forall_app. split; [done|]. constructor; [done|].
    rewrite Forall_app. split; [done|]. by constructor.
Qed.

(** * The further properties on concrete pages *)

Lemma step_two_needs_date_controls_witness :
  currentStep (manager (nextStep isoDate atStepTwo)) = 2 /\
  requests (handleActivitySubmit isoDate atStepTwo) = requests atStepTwo.
Proof.
  destruct (step_two_needs_date_controls isoDate atStepTwo (mkFormStep 2 [0%nat]))
    as (_ & Hnext & _ & _ & Hsubmit).
  - reflexivity.
  - reflexivity.
  - left. reflexivity.
  - split; [exact Hnext|exact Hsubmit].
Defined.

Lemma collectFormData_shape_witness :
  collectFormData noDates = None.
Proof.
  destruct (collectFormData_shape noDates) as (_ & _ & Hnone).
  apply Hnone. left. exists "title", "activityTitle". split.
  - apply elem_of_cons. left. reflexivity.
  - reflexivity.
Defined.

Lemma handleActivitySubmit_sends_iff_witness :
  requests (handleActivitySubmit isoDate atLastStep)
  = (requests atLastStep
     ++ [PostActivities (default [] (collectFormData (page atLastStep)))])%list.
Proof.
  pose proof (handleActivitySubmit_sends_iff isoDate atLastStep) as H.
  cbv zeta in H. destruct H as (Hsend & _).
  destruct (Hsend (default [] (collectFormData (page atLastStep)))) as (Hreq & _).
  - reflexivity.
  - reflexivity.
  - exact Hreq.
Defined.

Lemma previousStep_unconditional_witness :
  currentStep (manager (previousStep atLastStep)) = 2.
Proof.
  destruct (previousStep_unconditional isoDate atLastStep) as (_ & _ & _ & Hback & _).
  apply Hback. simpl. lia.
Defined.

Lemma filterActivities_while_loading_witness :
  requests (filterActivities "approved" (newWorld noDates))
  = [GetActivities 1 (itemsPerPage newActivityManager)
       (statusParam "approved") (searchParam (searchQuery newActivityManager))].
Proof.
  pose proof (filterActivities_while_loading isoDate (newWorld noDates) "approved") as H.
  cbv zeta in H. destruct H as (_ & _ & _ & Hreq & _).
  apply Hreq. reflexivity.
Defined.

Lemma files_stay_in_sync_witness :
  filesInSync
    (page (run isoDate (newWorld (wizardPage filledValues [certificate]))
             [DropFiles [photo; report]; ClickRemoveFile 0; Submit])).
Proof.
  destruct (files_stay_in_sync isoDate (newWorld (wizardPage filledValues [certificate]))
              [DropFiles [photo; report]; ClickRemoveFile 0; Submit]) as (Hrun & _).
  - reflexivity.
  - reflexivity.
  - exact Hrun.
Defined.

Lemma validateField_marks_witness :
  0%nat ∈ errorClass (snd (validateField 0 (wizardPage shortTitle []))) /\
  formErrors (snd (validateField 0 (wizardPage shortTitle []))) !! 0%nat
  = Some ["Title must be at least 3 characters"].
Proof.
  pose proof (validateField_marks 0 (mkField "activityTitle" "title" true "AB" "" 0)
                (wizardPage shortTitle [])) as H.
  cbv zeta in H. destruct H as (Hclass & _ & _ & Herr).
  - reflexivity.
  - split; [apply Hclass; reflexivity|].
    apply Herr. apply markers_wf_clean. reflexivity.
Defined.

Lemma shared_container_shows_last_witness :
  0%nat ∈ errorClass (snd (validateField 1 (snd (validateField 0 sharedRow)))) /\
  1%nat ∈ errorClass (snd (validateField 1 (snd (validateField 0 sharedRow)))) /\
  formErrors (snd (validateField 1 (snd (validateField 0 sharedRow)))) !! 0%nat
  = Some ["This field is required"].
Proof.
  apply (shared_container_shows_last 0 1
           (mkField "venue" "venue" true "" "" 0)
           (mkField "organizer" "organizer" true "" "" 0) sharedRow).
  - apply markers_wf_clean. reflexivity.
  - lia.
  - reflexivity.
  - reflexivity.
  - reflexivity.
  - reflexivity.
  - reflexivity.
Defined.

Lemma blur_erases_date_error_witness :
  4%nat ∈ errorClass (snd (validateDates isoDate (wizardPage reversedDates []))) /\
  (4%nat ∉ errorClass
           (snd (validateField 4
                   (snd (validateDates isoDate (wizardPage reversedDates [])))))) /\
  fst (validateDates isoDate
         (snd (validateField 4
                 (snd (validateDates isoDate (wizardPage reversedDates []))))))
  = Some false.
Proof.
  pose proof (blur_erases_date_error isoDate 4
                (mkField "endDate" "endDate" false "2025-03-05" "" 4)
                (wizardPage reversedDates [])) as H.
  cbv zeta in H. destruct H as (Hmarked & _ & Hgone & _ & Hstill).
  - apply markers_wf_clean. reflexivity.
  - reflexivity.
  - reflexivity.
  - reflexivity.
  - reflexivity.
  - split; [exact Hmarked|]. split; [exact Hgone|exact Hstill].
Defined.

Lemma validateCurrentStep_verdict_is_marks_witness :
  0%nat ∈ errorClass (snd (validateCurrentStep isoDate 1 (wizardPage shortTitle []))) /\
  fst (validateCurrentStep isoDate 1 (wizardPage shortTitle [])) <> true.
Proof.
  pose proof (validateCurrentStep_verdict_is_marks isoDate 1
                (mkFormStep 1 [0; 1; 2]%nat) (wizardPage shortTitle [])) as H.
  cbv zeta in H. destruct H as (Hmarks & Hverdict).
  - reflexivity.
  - lia.
  - repeat (constructor; [eexists; reflexivity|]). constructor.
  - assert (0%nat ∈ errorClass
                     (snd (validateCurrentStep isoDate 1 (wizardPage shortTitle []))))
      as Hin.
    { apply Hmarks; [apply elem_of_cons; left; reflexivity|reflexivity]. }
    split; [exact Hin|].
    intros Hok. apply (proj1 Hverdict Hok 0%nat); [|exact Hin].
    apply elem_of_cons. left. reflexivity.
Defined.

Lemma typeInto_clears_witness :
  valueAt 0 (typeInto 0 "Robotics" (wizardPage shortTitle [])) = "Robotics" /\
  (0%nat ∉ errorClass (typeInto 0 "Robotics" (wizardPage shortTitle []))).
Proof.
  pose proof (typeInto_clears 0 (mkField "activityTitle" "title" true "AB" "" 0)
                "Robotics" (wizardPage shortTitle [])) as H.
  cbv zeta in H. destruct H as (Hvalue & _ & Hclass & _).
  - reflexivity.
  - split; [exact Hvalue|exact Hclass].
Defined.

Lemma resetForm_idempotent_witness :
  currentStep (manager (resetForm atLastStep)) = 1.
Proof.
  destruct (resetForm_idempotent atLastStep) as (_ & _ & _ & _ & Hreset).
  destruct Hreset as (Hstep & _); [reflexivity|exact Hstep].
Defined.

Lemma generatePortfolio_never_requests_witness :
  requests (generatePortfolio ClickEvent (newWorld noDates)) = [] /\
  isGenerating (run isoDate (newWorld noDates) [ClickGenerate; ClickGenerate]) = false.
Proof.
  destruct (generatePortfolio_never_requests isoDate) as (Hcall & Hrun).
  split.
  - exact (proj1 (Hcall ClickEvent (newWorld noDates))).
  - exact (proj2 (proj2 (Hrun noDates [ClickGenerate; ClickGenerate]))).
Defined.

Lemma getFileIcon_first_match_witness :
  getFileIcon "image/pdf" = "image".
Proof.
  pose proof (getFileIcon_first_match "image/pdf") as H.
  cbv zeta in H. destruct H as (Himage & _).
  apply Himage. exists "pdf". reflexivity.
Defined.

Lemma escapeHtml_safe_witness :
  escapeHtml "Tom and Jerry" = "Tom and Jerry".
Proof.
  destruct escapeHtml_safe as (_ & _ & _ & Hplain).
  apply Hplain. intros c Hin.
  repeat (destruct Hin as [<- | Hin]; [repeat split; discriminate|]).
  destruct Hin.
Defined.

Lemma validatePassword_consistent_witness :
  strength (validatePassword "Passw0rd") <> "weak".
Proof.
  pose proof (validatePassword_consistent "Passw0rd") as H.
  cbv zeta in H. destruct H as (Hvalid & _).
  apply Hvalid. reflexivity.
Defined.

Lemma getCurrentPageName_spec_witness :
  getCurrentPageName "/pages/dashboard.html" = "dashboard".
Proof.
  destruct getCurrentPageName_spec as (_ & Hname).
  destruct (Hname "/pages" "dashboard" "html") as (Hext & _).
  - intros Hin. repeat (destruct Hin as [Hin | Hin]; [discriminate|]). destruct Hin.
  - intros Hin. repeat (destruct Hin as [Hin | Hin]; [discriminate|]). destruct Hin.
  - intros Hin. repeat (destruct Hin as [Hin | Hin]; [discriminate|]). destruct Hin.
  - exact Hext.
Defined.

Lemma calculateStats_sound_witness :
  exists stats,
    calculateStats [hackathon; tournament; seminar] = Some stats /\
    total_activities stats = 3 /\
    by_type stats !! "technical" = Some 2 /\
    (length (skills stats) <= 10)%nat.
Proof.
  assert (calculateStats [hackathon; tournament; seminar]
          = Some (default (mkStats 0 0 0 ∅ [])
                    (calculateStats [hackathon; tournament; seminar]))) as E
    by (vm_compute; reflexivity).
  destruct (calculateStats_sound _ _ E) as (Htotal & Htypes & Hlen & _).
  eexists. split; [exact E|]. split; [exact Htotal|]. split; [|exact Hlen].
  rewrite Htypes. reflexivity.
Defined.

Lemma debounce_coalesces_witness :
  debounce ([Call "a"; Expire] ++ map Call ["h"; "ha"] ++ [Call "hack"; Expire])
  = mkDebounced None ["a"; "hack"].
Proof.
  destruct (debounce_coalesces [Call "a"; Expire]) as (_ & _ & Hburst & _).
  exact (Hburst ["h"; "ha"] "hack").
Defined.

Lemma validateEmail_spec_witness :
  validateEmail "a@b..c" = true.
Proof.
  destruct (validateEmail_spec "a@b..c") as (Hspec & _).
  apply Hspec. exists "a", "b.", "c". split; [reflexivity|].
  repeat split; try discriminate; repeat constructor.
Defined.

Lemma throttle_drops_witness :
  throttle ([Call "a"; Call "b"] ++ Expire :: Call "c" :: map Call ["d"; "e"])
  = mkThrottled true ["a"; "c"].
Proof.
  destruct (throttle_drops [Call "a"; Call "b"]) as (_ & _ & Hburst).
  exact (proj1 (Hburst "c" ["d"; "e"])).
Defined.

